(** * sitegenerator.fileshandling: copying and treating files internal metadata

    A shallow embedding of [src/sitegenerator/fileshandling.py] and the
    properties of its document materialization engine: the importing copier
    ([import_and_copy_file]), the token substituter ([replace_variables]), the
    link normalizer ([reformat_links]) and the link prepender
    ([prepend_external_link]).

    Text is [string].  The file system is a finite map from paths to
    entries; a text file is given by its characters as they are on disk, and
    reading it in text mode delivers them line by line with the line
    terminators translated ([Str.text_mode]).  Paths name distinct files: a
    symbolic link, or any second name of a file, is not part of the model,
    and neither is the buffer of the destination stream: a copy that reads
    its own destination back is outside the model.  The functions that
    rewrite a file in place are functions on the text handed to them.  The
    variable map of a device is a finite map from names to values. *)

From Stdlib Require Import Ascii String.
From stdpp Require Import base gmap strings list.

Local Arguments String.append : simpl nomatch.

(** ** Python's [str] primitives used by the module *)

Module Str.

(** The line terminator of text mode. *)
Definition newline : ascii := "010"%char.
Definition nl : string := String newline "".

(** [s.startswith(p)] *)
Fixpoint startswith (p s : string) : bool :=
  match p, s with
  | "", _ => true
  | String a p', String b s' => if decide (a = b) then startswith p' s' else false
  | String _ _, "" => false
  end.

(** [s[:n]] and [s[n:]] for [n >= 0] *)
Fixpoint take (n : nat) (s : string) : string :=
  match n, s with
  | S k, String c s' => String c (take k s')
  | _, _ => ""
  end.

Fixpoint drop (n : nat) (s : string) : string :=
  match n, s with
  | S k, String _ s' => drop k s'
  | _, _ => s
  end.

(** [s[:-3]]: everything but the last three characters (empty when the
    string has fewer than three). *)
Definition strip3 (s : string) : string := take (String.length s - 3) s.

(** [''.join(parts)] *)
Fixpoint concat (parts : list string) : string :=
  match parts with
  | [] => ""
  | p :: ps => p +:+ concat ps
  end.

(** The longest prefix of [s] whose characters all satisfy [keep], as a
    greedy character class [[...]*] consumes it. *)
Fixpoint span (keep : ascii → bool) (s : string) : string * string :=
  match s with
  | "" => ("", "")
  | String c s' =>
      if keep c then let '(run, rest) := span keep s' in (String c run, rest)
      else ("", s)
  end.

(** [s.replace(old, new)] for a non-empty [old]: the occurrences of [old]
    are found left to right, without overlap; [skip] counts the characters
    of an occurrence still to be passed over. *)
Fixpoint replace_from (old new : string) (skip : nat) (s : string) : string :=
  match s with
  | "" => ""
  | String c s' =>
      match skip with
      | S k => replace_from old new k s'
      | O =>
          if startswith old s
          then new +:+ replace_from old new (String.length old - 1) s'
          else String c (replace_from old new 0 s')
      end
  end.

(** With an empty [old], Python inserts [new] before every character and at
    the end. *)
Fixpoint intersperse (new s : string) : string :=
  match s with
  | "" => new
  | String c s' => new +:+ String c (intersperse new s')
  end.

Definition replace (old new s : string) : string :=
  match old with
  | "" => intersperse new s
  | String _ _ => replace_from old new 0 s
  end.

(** Iterating a text file yields its lines, each with its terminator; the
    last line has none when the text does not end with one. *)
Fixpoint splitlines (s : string) : list string :=
  match s with
  | "" => []
  | String c s' =>
      if decide (c = newline) then String c "" :: splitlines s'
      else match splitlines s' with
           | [] => [String c ""]
           | l :: ls => String c l :: ls
           end
  end.

(** Reading in text mode translates the line terminators (universal
    newlines): a carriage return followed by a line feed, and any other
    carriage return, are delivered as one line feed.  Writing in text mode on
    a POSIX system stores the text as it is. *)
Definition carriage_return : ascii := "013"%char.

Fixpoint text_mode (chars : string) : string :=
  match chars with
  | "" => ""
  | String c rest =>
      if decide (c = carriage_return)
      then String newline
             match rest with
             | String c' rest' =>
                 if decide (c' = newline) then text_mode rest' else text_mode rest
             | "" => ""
             end
      else String c (text_mode rest)
  end.

(** [sep.join(parts)] *)
Fixpoint join (sep : string) (parts : list string) : string :=
  match parts with
  | [] => ""
  | [p] => p
  | p :: ps => p +:+ sep +:+ join sep ps
  end.

(** [s.split(sep)] for a non-empty [sep]: the pieces of [s] between the
    occurrences of [sep], found as [replace] finds them. *)
Fixpoint split_from (sep : string) (skip : nat) (s : string) : list string :=
  match s with
  | "" => [""]
  | String c s' =>
      match skip with
      | S k => split_from sep k s'
      | O =>
          if startswith sep s
          then "" :: split_from sep (String.length sep - 1) s'
          else match split_from sep 0 s' with
               | [] => [String c ""]
               | p :: ps => String c p :: ps
               end
      end
  end.

Definition split (sep s : string) : list string := split_from sep 0 s.

(** No character of [s] is one of [cs]. *)
Fixpoint free_of (cs : list ascii) (s : string) : bool :=
  match s with
  | "" => true
  | String c s' => bool_decide (c ∉ cs) && free_of cs s'
  end.

End Str.

(** ** [tools.replace_file_inline] *)

(** Modelled from the spec: [replace_file_inline] of module [tools], which is
    not part of the sources at hand.  It hands the body a read handle over the
    original file and a write handle over a temporary; on a clean exit the
    temporary replaces the original.  The body is a function from the lines
    read to the pieces of text written; the new content is what was written. *)
Definition replace_file_inline {A : Type} (body : list string → A * list string)
    (content : string) : A * string :=
  let '(result, written) := body (Str.splitlines content) in
  (result, Str.concat written).

(** ** Link prepender *)

(** The loop of [prepend_external_link]: [line_count] is the number of the
    line being read; the annotation is written when the second line is read,
    before it. *)
Fixpoint prepend_external_link_loop (message url : string) (line_count : nat)
    (source_f : list string) : list string :=
  match source_f with
  | [] => []
  | line :: rest =>
      (if decide (line_count = 2)
       then ["> [" +:+ message +:+ "](" +:+ url +:+ ")" +:+ Str.nl]
       else [])
      ++ line :: prepend_external_link_loop message url (S line_count) rest
  end.

Definition prepend_external_link (content message url : string) : string :=
  snd (replace_file_inline
         (λ source_f, (tt, prepend_external_link_loop message url 1 source_f)) content).

(** ** The regular expressions of the module *)

Module Re.

(** [findall]: the pattern is tried at every position from left to right;
    after a match the scan resumes behind it.  [match_at s] is the match of
    the pattern at the start of [s]: its group and its length (no pattern
    of the module matches the empty string).  [skip] counts the characters
    of the last match still to be passed over. *)
Fixpoint findall_from (match_at : string → option (string * nat)) (skip : nat)
    (s : string) : list string :=
  match s with
  | "" => []
  | String _ s' =>
      match skip with
      | S k => findall_from match_at k s'
      | O =>
          match match_at s with
          | Some (group, len) => group :: findall_from match_at (len - 1) s'
          | None => findall_from match_at 0 s'
          end
      end
  end.

Definition findall (match_at : string → option (string * nat)) (s : string) : list string :=
  findall_from match_at 0 s.

(** [import_re]: the marker ##IMPORT and one space, then, as the group, the
    rest of the line (the dot stops at the line terminator). *)
Definition import_re (s : string) : option (string * nat) :=
  if Str.startswith "##IMPORT " s
  then let '(path, _) := Str.span (λ c, bool_decide (c ≠ Str.newline)) (Str.drop 9 s) in
       Some (path, 9 + String.length path)
  else None.

(** [required_variable_re] and [optional_variable_re] have one shape: the
    opening character twice; as the group, a greedy run of characters that
    are neither the opening nor the closing one; the closing character
    twice.  Only the longest run can be followed by the closing character,
    so backtracking finds nothing more. *)
Definition variable_re (o c : ascii) (s : string) : option (string * nat) :=
  match s with
  | String a (String b rest) =>
      if bool_decide (a = o) && bool_decide (b = o)
      then let '(name, rest') := Str.span (λ x, bool_decide (x ≠ o) && bool_decide (x ≠ c)) rest in
           if Str.startswith (String c (String c "")) rest'
           then Some (name, 4 + String.length name)
           else None
      else None
  | _ => None
  end.

Definition required_variable_re : string → option (string * nat) := variable_re "[" "]".
Definition optional_variable_re : string → option (string * nat) := variable_re "<" ">".

(** [relative_markdown_links]: an opening parenthesis; then, as the group,
    under the negative lookahead that the text does not start with http or
    www, one character other than the line terminator, a greedy run of
    characters other than the closing parenthesis, and the suffix .md; then
    a closing parenthesis.  The run cannot pass a closing parenthesis, so
    the match ends at the first one behind the first character, and the
    three characters before it are the suffix. *)
Definition relative_markdown_links (s : string) : option (string * nat) :=
  match s with
  | String a (String c rest as target) =>
      if negb (bool_decide (a = "("%char)) then None
      else if Str.startswith "http" target || Str.startswith "www" target then None
      else if bool_decide (c = Str.newline) then None
      else let '(run, rest') := Str.span (λ x, bool_decide (x ≠ ")"%char)) rest in
           if Str.startswith ")" rest'
              && bool_decide (Str.drop (String.length run - 3) run = ".md")
           then Some (String c run, 3 + String.length run)
           else None
  | _ => None
  end.

End Re.

(** ** Logging *)

Inductive level := DEBUG | INFO | ERROR.

Definition record : Type := level * string.

(** ** Token substituter *)

(** [replace_pattern.format(keyword)]: a pattern is the text before and the
    text after its one replacement field. *)
Definition format1 (replace_pattern : string * string) (keyword : string) : string :=
  fst replace_pattern +:+ keyword +:+ snd replace_pattern.

(** [_replace_from_map]: the keywords are found once, in the line as it is
    given; each is then replaced throughout the current line, by its value
    or, when it has none, by the empty string. *)
Definition _replace_from_map (line : string) (regexp : string → option (string * nat))
    (replace_pattern : string * string) (device_vars : gmap string string)
    : string * list string :=
  fold_left
    (λ '(line, unfound_keywords_list) keyword,
       match device_vars !! keyword with
       | Some replace_with =>
           (Str.replace (format1 replace_pattern keyword) replace_with line,
            unfound_keywords_list)
       | None =>
           (Str.replace (format1 replace_pattern keyword) "" line,
            unfound_keywords_list ++ [keyword])
       end)
    (Re.findall regexp line) (line, []).

(** [str(device_name)]: the default is [None]. *)
Definition str_of_name (device_name : option string) : string :=
  default "None" device_name.

(** [_replace_line_content]: the new line, the success flag and the records
    logged. *)
Definition _replace_line_content (line filename : string) (device_name : option string)
    (device_vars : gmap string string) : string * bool * list record :=
  let '(line, unfound_optional) :=
    _replace_from_map line Re.optional_variable_re ("<<", ">>") device_vars in
  let infos :=
    (λ keyword, (INFO, str_of_name device_name +:+ " doesn't have any mapping for "
                       +:+ keyword +:+ " which is optional in " +:+ filename))
      <$> unfound_optional in
  let '(line, unfound_required) :=
    _replace_from_map line Re.required_variable_re ("[[", "]]") device_vars in
  let errors :=
    (λ keyword, (ERROR, str_of_name device_name +:+ " doesn't have any mapping for "
                        +:+ keyword +:+ " which is required in " +:+ filename))
      <$> unfound_required in
  (line, bool_decide (unfound_required = []), infos ++ errors).

Fixpoint replace_variables_loop (path : string) (device_name : option string)
    (device_vars : gmap string string) (success : bool) (source_f : list string)
    : bool * list string * list record :=
  match source_f with
  | [] => (success, [], [])
  | line :: rest =>
      let '(line, new_success, logged) :=
        _replace_line_content line path device_name device_vars in
      let '(success, written, logged') :=
        replace_variables_loop path device_name device_vars (new_success && success) rest in
      (success, line :: written, logged ++ logged')
  end.

(** [replace_variables] on the content of the file at [path]: the success
    flag, the new content and the records logged. *)
Definition replace_variables (content path : string) (device_name : option string)
    (device_vars : gmap string string) : bool * string * list record :=
  let '(success, logged, content) :=
    replace_file_inline
      (λ source_f,
         let '(success, written, logged) :=
           replace_variables_loop path device_name device_vars true source_f in
         ((success, logged), written))
      content in
  (success, content, logged).

(** ** Link normalizer *)

(** The body of the loop of [reformat_links] on one line. *)
Definition reformat_line (line : string) : string :=
  fold_left (λ line link_to_replace, Str.replace link_to_replace (Str.strip3 link_to_replace) line)
            (Re.findall Re.relative_markdown_links line) line.

Definition reformat_links (content : string) : string :=
  snd (replace_file_inline (λ source_f, (tt, reformat_line <$> source_f)) content).

(** ** Paths: [os.path] on a POSIX system *)

Module Path.

Definition sep : ascii := "/"%char.

Fixpoint has_sep (p : string) : bool :=
  match p with
  | "" => false
  | String c p' => bool_decide (c = sep) || has_sep p'
  end.

(** [p[:p.rfind('/') + 1]]: up to the last separator, included. *)
Fixpoint head (p : string) : string :=
  match p with
  | "" => ""
  | String c p' => if has_sep p then String c (head p') else ""
  end.

Fixpoint all_sep (p : string) : bool :=
  match p with
  | "" => true
  | String c p' => bool_decide (c = sep) && all_sep p'
  end.

(** [p.rstrip('/')] *)
Fixpoint rstrip (p : string) : string :=
  match p with
  | "" => ""
  | String c p' =>
      match rstrip p' with
      | "" => if bool_decide (c = sep) then "" else String c ""
      | r => String c r
      end
  end.

(** [os.path.dirname] *)
Definition dirname (p : string) : string :=
  let h := head p in
  if all_sep h then h else rstrip h.

Fixpoint endswith_sep (p : string) : bool :=
  match p with
  | "" => false
  | String c "" => bool_decide (c = sep)
  | String _ p' => endswith_sep p'
  end.

(** [os.path.join] of two components *)
Definition join (a b : string) : string :=
  if Str.startswith "/" b then b
  else if bool_decide (a = "") || endswith_sep a then a +:+ b
  else a +:+ "/" +:+ b.

End Path.

(** ** Files and the file system *)

(** A file read in text mode either decodes to the end, or delivers some
    lines and then fails to decode.  [content] is what a file that decodes
    holds on disk; [raw] is the content of one that does not, [delivered] the
    lines handed out before the failure and [reason] the text of the error. *)
Inductive file :=
| Text (content : string)
| Binary (raw : string) (delivered : list string) (reason : string).

(** What a path names.  A path absent from the map names nothing, in a
    directory that exists: it cannot be read but can be created. *)
Inductive entry :=
| Regular (f : file)
| Unopenable   (* a directory, or a file the process may not open *)
| NoParent.    (* a path under a directory that does not exist *)

(** The exceptions the module tells apart. *)
Inductive exn :=
| FileNotFoundError
| OSError                       (* any other error of the operating system *)
| UnicodeDecodeError (e : string).

(** [open(path)] *)
Definition open_r (fs : gmap string entry) (path : string) : exn + file :=
  match fs !! path with
  | Some (Regular f) => inr f
  | Some Unopenable => inl OSError
  | Some NoParent | None => inl FileNotFoundError
  end.

(** [open(path, 'w')]: the file is created, or emptied when it exists.  The
    path is taken to name the file itself: writing through a symbolic link
    to a file of another name is not modelled. *)
Definition open_w (fs : gmap string entry) (path : string) : exn + gmap string entry :=
  match fs !! path with
  | Some Unopenable => inl OSError
  | Some NoParent => inl FileNotFoundError
  | Some (Regular _) | None => inr (<[path := Regular (Text "")]> fs)
  end.

(** The lines the iteration over a file yields, and how it ends.  The lines
    of a text file are those of its content with the line terminators
    translated, as text mode delivers them. *)
Definition lines_of (f : file) : list string :=
  match f with
  | Text content => Str.splitlines (Str.text_mode content)
  | Binary _ delivered _ => delivered
  end.

Definition end_of (f : file) : option exn :=
  match f with
  | Text _ => None
  | Binary _ _ reason => Some (UnicodeDecodeError reason)
  end.

(** [shutil.copy2(src, dst)]: the content of [src] becomes that of [dst],
    byte for byte (the metadata copied along is not modelled, and [dst] names
    the file itself, as for [open_w]). *)
Definition copy2 (fs : gmap string entry) (src dst : string) : exn + gmap string entry :=
  match open_r fs src with
  | inl e => inl e
  | inr f =>
      if decide (src = dst) then inl OSError   (* SameFileError *)
      else match open_w fs dst with
           | inl e => inl e
           | inr fs' => inr (<[dst := Regular f]> fs')
           end
  end.

(** ** Importing copier *)

(** What has been written to the destination stream and logged so far. *)
Record io := Io { written : string; logged : list record }.

Definition write (text : string) (st : io) : io :=
  Io (written st +:+ text) (logged st).

Definition log (lvl : level) (message : string) (st : io) : io :=
  Io (written st) (logged st ++ [(lvl, message)]).

Section Importing.

(** [os.path.realpath]: the symbolic links of the file system resolved. *)
Variable realpath : string → string.

(** The files read during a copy. *)
Variable fs : gmap string entry.

(** The loop of [_copycontent_withimports_tag] over the lines of the file
    named [name]; [recur] is the recursive call on an imported file.  An
    exception other than [FileNotFoundError] leaves the loop. *)
Fixpoint copy_lines (recur : string → file → io → option (io * (exn + bool)))
    (name : string) (lines : list string) (success : bool) (st : io)
    : option (io * (exn + bool)) :=
  match lines with
  | [] => Some (st, inr success)
  | line :: rest =>
      match Re.findall Re.import_re line with
      | rel_path :: _ =>
          let path := Path.join (Path.dirname (realpath name)) rel_path in
          let failed st :=
            copy_lines recur name rest false
              (log ERROR ("Couldn't import " +:+ rel_path +:+ " from " +:+ name) st) in
          match open_r fs path with
          | inr import_f =>
              match recur path import_f st with
              | None => None
              | Some (st', inr imported) => copy_lines recur name rest (success && imported) st'
              | Some (st', inl FileNotFoundError) => failed st'
              | Some (st', inl e) => Some (st', inl e)
              end
          | inl FileNotFoundError => failed st
          | inl e => Some (st, inl e)
          end
      | [] => copy_lines recur name rest success (write line st)
      end
  end.

(** [_copycontent_withimports_tag(source_f, dest_f)], where [name] is
    [source_f.name].  [fuel] bounds the depth of the recursion; [None] is a
    recursion deeper than that.  The result is the value returned, or the
    exception that leaves the call. *)
Fixpoint _copycontent_withimports_tag (fuel : nat) (name : string) (source_f : file)
    (st : io) : option (io * (exn + bool)) :=
  match fuel with
  | O => None
  | S fuel' =>
      match copy_lines (_copycontent_withimports_tag fuel') name (lines_of source_f) true st with
      | Some (st', inr success) =>
          match end_of source_f with
          | Some e => Some (st', inl e)
          | None => Some (st', inr success)
          end
      | r => r
      end
  end.

End Importing.

(** The outcome of [import_and_copy_file]: what it returns or lets escape,
    the file system it leaves and the records it logged. *)
Record outcome := Outcome {
  result : exn + bool;
  files : gmap string entry;
  records : list record
}.

(** [import_and_copy_file(source_path, destination_path)].  The destination
    is opened first, then the source; while the copy runs the files are read
    as they are once the destination has been emptied; closing the
    destination leaves in it what was written, stored as it is.  What the
    stream has flushed to the destination before it is closed is not
    modelled: the model follows the code on the calls whose directives do
    not refer to the destination ([refers] below). *)
Definition import_and_copy_file (realpath : string → string) (fuel : nat)
    (fs : gmap string entry) (source_path destination_path : string) : option outcome :=
  let not_found fs' :=
    Some (Outcome (inr false) fs' [(ERROR, "Couldn't open " +:+ source_path)]) in
  match open_w fs destination_path with
  | inl FileNotFoundError => not_found fs
  | inl e => Some (Outcome (inl e) fs [])
  | inr fs1 =>
      match open_r fs1 source_path with
      | inl FileNotFoundError => not_found fs1
      | inl e => Some (Outcome (inl e) fs1 [])
      | inr source_f =>
          match _copycontent_withimports_tag realpath fs1 fuel source_path source_f (Io "" []) with
          | None => None
          | Some (st, r) =>
              let fs2 := <[destination_path := Regular (Text (written st))]> fs1 in
              match r with
              | inr success => Some (Outcome (inr success) fs2 (logged st))
              | inl (UnicodeDecodeError e) =>
                  let records :=
                    logged st ++ [(DEBUG, "Directly copy as can't read " +:+ source_path
                                          +:+ " as text: " +:+ e)] in
                  match copy2 fs2 source_path destination_path with
                  | inl e' => Some (Outcome (inl e') fs2 records)
                  | inr fs3 => Some (Outcome (inr true) fs3 records)
                  end
              | inl FileNotFoundError =>
                  Some (Outcome (inr false) fs2
                          (logged st ++ [(ERROR, "Couldn't open " +:+ source_path)]))
              | inl OSError => Some (Outcome (inl OSError) fs2 (logged st))
              end
          end
      end
  end.

(** ** The import tree, in the words of the specification *)

Section ImportTree.

Variable realpath : string → string.
Variable fs : gmap string entry.

(** The path a directive [rel_path] of the file [name] refers to: relative
    to the real directory of [name]. *)
Definition target (name rel_path : string) : string :=
  Path.join (Path.dirname (realpath name)) rel_path.

(** The tree below the lines of [name] is finite and made of text files:
    every directive refers to a path that is not found, or to a text file
    with such a tree in turn. *)
Inductive completes : string → list string → Prop :=
| completes_nil name :
    completes name []
| completes_copy name line rest :
    Re.findall Re.import_re line = [] →
    completes name rest →
    completes name (line :: rest)
| completes_missing name line rel_path more rest :
    Re.findall Re.import_re line = rel_path :: more →
    open_r fs (target name rel_path) = inl FileNotFoundError →
    completes name rest →
    completes name (line :: rest)
| completes_import name line rel_path more rest content :
    Re.findall Re.import_re line = rel_path :: more →
    open_r fs (target name rel_path) = inr (Text content) →
    completes (target name rel_path) (lines_of (Text content)) →
    completes name rest →
    completes name (line :: rest).

(** Some directive of the tree, nested ones included, refers to a file
    that could not be opened. *)
Inductive unresolved : string → list string → Prop :=
| unresolved_here name lines line rel_path more e :
    line ∈ lines →
    Re.findall Re.import_re line = rel_path :: more →
    open_r fs (target name rel_path) = inl e →
    unresolved name lines
| unresolved_below name lines line rel_path more import_f :
    line ∈ lines →
    Re.findall Re.import_re line = rel_path :: more →
    open_r fs (target name rel_path) = inr import_f →
    unresolved (target name rel_path) (lines_of import_f) →
    unresolved name lines.

(** [line] is a line without directive of a file of the tree: of the file
    itself or of a file one of its directives opens, at any depth. *)
Inductive emitted : string → list string → string → Prop :=
| emitted_here name lines line :
    line ∈ lines →
    Re.findall Re.import_re line = [] →
    emitted name lines line
| emitted_below name lines directive rel_path more import_f line :
    directive ∈ lines →
    Re.findall Re.import_re directive = rel_path :: more →
    open_r fs (target name rel_path) = inr import_f →
    emitted (target name rel_path) (lines_of import_f) line →
    emitted name lines line.

(** Some directive of the tree, nested ones included, refers to [path]:
    the copy opens [path], or tries to. *)
Inductive refers : string → list string → string → Prop :=
| refers_here name lines line rel_path more :
    line ∈ lines →
    Re.findall Re.import_re line = rel_path :: more →
    refers name lines (target name rel_path)
| refers_below name lines line rel_path more import_f path :
    line ∈ lines →
    Re.findall Re.import_re line = rel_path :: more →
    open_r fs (target name rel_path) = inr import_f →
    refers (target name rel_path) (lines_of import_f) path →
    refers name lines path.


End ImportTree.

(** A path at which a file can be opened for writing. *)
Definition creatable (fs : gmap string entry) (path : string) : Prop :=
  fs !! path = None ∨ ∃ f, fs !! path = Some (Regular f).

(** ** Lines as text and placeholders *)

Inductive token :=
| Lit (text : string)
| Req (name : string)    (* a required placeholder *)
| Opt (name : string).   (* an optional placeholder *)

Definition render_token (t : token) : string :=
  match t with
  | Lit text => text
  | Req name => "[[" +:+ name +:+ "]]"
  | Opt name => "<<" +:+ name +:+ ">>"
  end.

Definition render (ts : list token) : string := Str.concat (render_token <$> ts).

(** The value that stands for a name: its mapping, or the empty string. *)
Definition value (device_vars : gmap string string) (name : string) : string :=
  default "" (device_vars !! name).

Definition substitute_token (device_vars : gmap string string) (t : token) : string :=
  match t with
  | Lit text => text
  | Req name | Opt name => value device_vars name
  end.

Definition substitute (device_vars : gmap string string) (ts : list token) : string :=
  Str.concat (substitute_token device_vars <$> ts).

Fixpoint required_names (ts : list token) : list string :=
  match ts with
  | [] => []
  | Req name :: ts' => name :: required_names ts'
  | _ :: ts' => required_names ts'
  end.

(** Text free of the four characters the placeholders are written with. *)
Definition clean (s : string) : bool :=
  Str.free_of ["["; "]"; "<"; ">"]%char s.

Definition clean_token (device_vars : gmap string string) (t : token) : bool :=
  match t with
  | Lit text => clean text
  | Req name | Opt name => clean name && clean (value device_vars name)
  end.

(** One pass sees a line as text and the placeholders of its own kind,
    written with the opening character [o] and the closing character [c]. *)
Definition delim (a : ascii) : string := String a (String a "").

Definition render_item (o c : ascii) (it : string + string) : string :=
  match it with
  | inl text => text
  | inr name => delim o +:+ name +:+ delim c
  end.

Definition render_items (o c : ascii) (its : list (string + string)) : string :=
  Str.concat (render_item o c <$> its).

Fixpoint names (its : list (string + string)) : list string :=
  match its with
  | [] => []
  | inr name :: its' => name :: names its'
  | inl _ :: its' => names its'
  end.

Definition fill (device_vars : gmap string string) (it : string + string) : string :=
  match it with
  | inl text => text
  | inr name => value device_vars name
  end.

(** The placeholders of name [k] replaced by the text [v]. *)
Definition subst1 (k v : string) (it : string + string) : string + string :=
  match it with
  | inr name => if decide (name = k) then inl v else inr name
  | inl text => inl text
  end.

Definition item_ok (o c : ascii) (it : string + string) : Prop :=
  match it with
  | inl s | inr s => Str.free_of [o; c] s = true
  end.

(** A line of tokens as the pass over the optional placeholders sees it, and
    as the pass over the required ones sees it afterwards. *)
Definition optional_view (t : token) : string + string :=
  match t with
  | Lit text => inl text
  | Req name => inl ("[[" +:+ name +:+ "]]")
  | Opt name => inr name
  end.

Definition required_view (device_vars : gmap string string) (t : token) : string + string :=
  match t with
  | Lit text => inl text
  | Req name => inr name
  | Opt name => inl (value device_vars name)
  end.

(** Every required placeholder of the line has a mapping. *)
Definition all_mapped (device_vars : gmap string string) (ts : list token) : bool :=
  forallb (λ name, bool_decide (is_Some (device_vars !! name))) (required_names ts).

(** A token written without the four characters: plain text, or a
    placeholder with such a name. *)
Definition well_written (t : token) : bool :=
  match t with
  | Lit text => clean text
  | Req name | Opt name => clean name
  end.

(** A value made of plain text and required placeholders. *)
Definition no_optional (t : token) : bool :=
  match t with
  | Opt _ => false
  | _ => true
  end.

(** The line the pass over the optional placeholders leaves, as tokens, when
    the value of each optional placeholder [name] is made of the tokens
    [parts name]. *)
Definition expand (parts : string → list token) (t : token) : list token :=
  match t with
  | Opt name => parts name
  | _ => [t]
  end.

(** ** Sample trees *)

(** A small tree: [/d/a.md] imports [/d/sub/b.md], which imports
    [/d/sub/inc/c.md]. *)
Definition chain_a : string := "a1" +:+ Str.nl +:+ "##IMPORT sub/b.md" +:+ Str.nl +:+ "a2" +:+ Str.nl.
Definition chain_b : string := "b1" +:+ Str.nl +:+ "##IMPORT inc/c.md" +:+ Str.nl +:+ "b2" +:+ Str.nl.
Definition chain_c : string := "c1" +:+ Str.nl.

Definition chain_fs : gmap string entry :=
  {[ "/d/a.md" := Regular (Text chain_a);
     "/d/sub/b.md" := Regular (Text chain_b);
     "/d/sub/inc/c.md" := Regular (Text chain_c) ]}.

(** A tree with a missing file and an undecodable one: [/d/d.md] imports a
    file that does not exist, then [/d/logo.png]. *)
Definition mixed_d : string :=
  "##IMPORT missing.md" +:+ Str.nl +:+ "##IMPORT logo.png" +:+ Str.nl +:+ "d" +:+ Str.nl.

Definition mixed_fs : gmap string entry :=
  {[ "/d/d.md" := Regular (Text mixed_d);
     "/d/logo.png" := Regular (Binary "PNG" [] "invalid start byte") ]}.

(** A document whose lines end with a carriage return and a line feed. *)
Definition crlf : string := String Str.carriage_return Str.nl.
Definition crlf_doc : string := "Title" +:+ crlf +:+ "Body" +:+ crlf.

Definition crlf_fs : gmap string entry :=
  {[ "/doc/a.md" := Regular (Text crlf_doc) ]}.

(** A tree of text files with a missing one: [/d/a.md] imports [/d/b.md],
    which imports a file that does not exist. *)
Definition partial_a : string := "a1" +:+ Str.nl +:+ "##IMPORT b.md" +:+ Str.nl +:+ "a2" +:+ Str.nl.
Definition partial_b : string := "b1" +:+ Str.nl +:+ "##IMPORT missing.md" +:+ Str.nl +:+ "b2" +:+ Str.nl.

Definition partial_fs : gmap string entry :=
  {[ "/d/a.md" := Regular (Text partial_a);
     "/d/b.md" := Regular (Text partial_b) ]}.


(** ** Further vocabulary *)

(** A record of level [ERROR] is among the records. *)
Definition has_error (records : list record) : Prop :=
  ∃ message, (ERROR, message) ∈ records.

(** A call of the copier only adds to the records, and returns false only
    with an error record among them. *)
Definition reports (recur : string → file → io → option (io * (exn + bool))) : Prop :=
  ∀ path f st st' r,
    recur path f st = Some (st', r) →
    (∃ extra, logged st' = logged st ++ extra)
    ∧ (r = inr false → has_error (logged st')).

(** A call of the copier that returns true has added no record. *)
Definition quiet (recur : string → file → io → option (io * (exn + bool))) : Prop :=
  ∀ path f st st',
    recur path f st = Some (st', inr true) → logged st' = logged st.

Fixpoint optional_names (ts : list token) : list string :=
  match ts with
  | [] => []
  | Opt name :: ts' => name :: optional_names ts'
  | _ :: ts' => optional_names ts'
  end.

(** The records [_replace_line_content] logs for the names without mapping. *)
Definition info_record (device_name : option string) (filename keyword : string) : record :=
  (INFO, str_of_name device_name +:+ " doesn't have any mapping for "
         +:+ keyword +:+ " which is optional in " +:+ filename).

Definition error_record (device_name : option string) (filename keyword : string) : record :=
  (ERROR, str_of_name device_name +:+ " doesn't have any mapping for "
          +:+ keyword +:+ " which is required in " +:+ filename).

(** Every opening parenthesis of the text is followed by http or www. *)
Fixpoint links_absolute (s : string) : bool :=
  match s with
  | "" => true
  | String c s' =>
      (if bool_decide (c = "("%char)
       then Str.startswith "http" s' || Str.startswith "www" s'
       else true)
      && links_absolute s'
  end.

(** [sub in s] *)
Fixpoint contains (sub s : string) : bool :=
  Str.startswith sub s
  || match s with
     | "" => false
     | String _ s' => contains sub s'
     end.

(** ** Further sample trees *)

(** A file that imports itself. *)
Definition loop_fs : gmap string entry :=
  {[ "/d/loop.md" :=
       Regular (Text ("intro" +:+ Str.nl +:+ "##IMPORT loop.md" +:+ Str.nl)) ]}.

(** A directive without path: it refers to the directory of the file. *)
Definition locked_a : string :=
  "a1" +:+ Str.nl +:+ "##IMPORT " +:+ Str.nl +:+ "a2" +:+ Str.nl.

Definition locked_fs : gmap string entry :=
  {[ "/d/a.md" := Regular (Text locked_a); "/d/" := Unopenable ]}.


(** * Properties *)

(** ** Text *)

Module StrFacts.

Lemma app_nil_r s : s +:+ "" = s.
Proof. induction s as [|c s IH]; simpl; [done | by rewrite IH]. Qed.

Lemma app_assoc a b c : (a +:+ b) +:+ c = a +:+ b +:+ c.
Proof. induction a as [|x a IH]; simpl; [done | by rewrite IH]. Qed.

Lemma length_app a b : String.length (a +:+ b) = String.length a + String.length b.
Proof. induction a as [|x a IH]; simpl; [done | by rewrite IH]. Qed.

Lemma startswith_app p r : Str.startswith p (p +:+ r) = true.
Proof.
  induction p as [|x p IH]; simpl; [done |].
  by rewrite decide_True.
Qed.

Lemma startswith_inv p s : Str.startswith p s = true → ∃ r, s = p +:+ r.
Proof.
  revert s; induction p as [|x p IH]; intros s H.
  - by exists s.
  - destruct s as [|y s]; simpl in H; [done |].
    destruct (decide (x = y)) as [->|]; [| done].
    destruct (IH _ H) as [r ->]. by exists r.
Qed.

Lemma drop_app x r : Str.drop (String.length x) (x +:+ r) = r.
Proof. induction x as [|c x IH]; simpl; [by destruct r | done]. Qed.

Lemma concat_app l1 l2 : Str.concat (l1 ++ l2) = Str.concat l1 +:+ Str.concat l2.
Proof.
  induction l1 as [|p l1 IH]; simpl; [done |].
  by rewrite IH, app_assoc.
Qed.

(** Writing the lines of a text one after the other gives the text back. *)
Lemma concat_splitlines s : Str.concat (Str.splitlines s) = s.
Proof.
  induction s as [|c s IH]; simpl; [done |].
  destruct (decide (c = Str.newline)); simpl; [by rewrite IH |].
  destruct (Str.splitlines s) as [|l ls]; simpl in *; by rewrite <- IH.
Qed.

(** Text mode delivers a text as it is exactly when the text holds no
    carriage return. *)
Lemma text_mode_free s :
  Str.text_mode s = s ↔ Str.free_of [Str.carriage_return] s = true.
Proof.
  induction s as [|c s IH]; [done |]. cbn [Str.text_mode Str.free_of].
  destruct (decide (c = Str.carriage_return)) as [->|Hc].
  - rewrite bool_decide_false by (intros H; apply H; by left). by split.
  - rewrite bool_decide_true by (rewrite elem_of_cons, elem_of_nil; tauto).
    rewrite <- IH. split; [by intros [=] | by intros ->].
Qed.

End StrFacts.

(** ** Link prepender *)

(** Past the second line nothing is inserted. *)
Lemma prepend_external_link_loop_past message url n source_f :
  2 < n → prepend_external_link_loop message url n source_f = source_f.
Proof.
  revert n; induction source_f as [|line rest IH]; intros n Hn; simpl; [done |].
  rewrite decide_False by lia. simpl. f_equal. apply IH. lia.
Qed.

(** On a document of at least two lines the annotation becomes the second
    line and every line is kept. *)
Lemma prepend_external_link_two_lines content message url first second rest :
  Str.splitlines content = first :: second :: rest →
  prepend_external_link content message url
  = Str.concat (first :: ("> [" +:+ message +:+ "](" +:+ url +:+ ")" +:+ Str.nl)
                  :: second :: rest).
Proof.
  intros H. unfold prepend_external_link, replace_file_inline. rewrite H. simpl.
  by rewrite prepend_external_link_loop_past by lia.
Qed.

Example prepend_external_link_title_body :
  Str.splitlines
    (prepend_external_link ("Title" +:+ Str.nl +:+ "Body" +:+ Str.nl) "source" "http://x")
  = ["Title" +:+ Str.nl; "> [source](http://x)" +:+ Str.nl; "Body" +:+ Str.nl].
Proof. reflexivity. Qed.

(** C4, at the input on which the code departs from it: on a document of one
    line, [prepend_external_link] writes the document back as it is; the
    annotation line is not inserted, since it is written only when a second
    line is read. *)
Theorem prepend_external_link_one_line content message url line :
  Str.splitlines content = [line] →
  prepend_external_link content message url = content.
Proof.
  intros H. unfold prepend_external_link, replace_file_inline. rewrite H. simpl.
  rewrite <- (StrFacts.concat_splitlines content), H. done.
Qed.

Lemma prepend_external_link_one_line_witness :
  Str.splitlines ("Title" +:+ Str.nl) = ["Title" +:+ Str.nl]
  ∧ prepend_external_link ("Title" +:+ Str.nl) "source" "http://x" = "Title" +:+ Str.nl.
Proof.
  split; [reflexivity |].
  apply (prepend_external_link_one_line _ "source" "http://x" ("Title" +:+ Str.nl)).
  reflexivity.
Defined.

(** ** Importing copier *)

Section CopyFacts.

Variable realpath : string → string.
Variable fs : gmap string entry.

Local Abbreviation copy_lines := (copy_lines realpath fs).
Local Abbreviation copy := (_copycontent_withimports_tag realpath fs).
Local Abbreviation target := (target realpath).

(** The steps of the loop. *)
Lemma copy_lines_write recur name line rest success st :
  Re.findall Re.import_re line = [] →
  copy_lines recur name (line :: rest) success st
  = copy_lines recur name rest success (write line st).
Proof. intros H; simpl. by rewrite H. Qed.

Lemma copy_lines_missing recur name line rel_path more rest success st :
  Re.findall Re.import_re line = rel_path :: more →
  open_r fs (target name rel_path) = inl FileNotFoundError →
  copy_lines recur name (line :: rest) success st
  = copy_lines recur name rest false
      (log ERROR ("Couldn't import " +:+ rel_path +:+ " from " +:+ name) st).
Proof. intros H Hop; simpl. rewrite H. unfold target in Hop. by rewrite Hop. Qed.

Lemma copy_lines_import recur name line rel_path more rest success st import_f st' imported :
  Re.findall Re.import_re line = rel_path :: more →
  open_r fs (target name rel_path) = inr import_f →
  recur (target name rel_path) import_f st = Some (st', inr imported) →
  copy_lines recur name (line :: rest) success st
  = copy_lines recur name rest (success && imported) st'.
Proof.
  intros H Hop Hrec; simpl. rewrite H. unfold target in Hop, Hrec. by rewrite Hop, Hrec.
Qed.


(** Lines without directive are written one after the other. *)
Lemma copy_lines_plain recur name lines success st :
  (∀ line, line ∈ lines → Re.findall Re.import_re line = []) →
  copy_lines recur name lines success st
  = Some (Io (written st +:+ Str.concat lines) (logged st), inr success).
Proof.
  revert st; induction lines as [|line rest IH]; intros st H; simpl.
  - rewrite StrFacts.app_nil_r. by destruct st.
  - rewrite (H line) by left. rewrite IH by (intros; apply H; by right).
    simpl. by rewrite StrFacts.app_assoc.
Qed.

(** The loop over [before ++ rest] continues with [rest] where the loop
    over [before] ends. *)
Lemma copy_lines_app recur name before rest success st st' success' :
  copy_lines recur name before success st = Some (st', inr success') →
  copy_lines recur name (before ++ rest) success st
  = copy_lines recur name rest success' st'.
Proof.
  revert success st; induction before as [|line before IH]; intros success st H; simpl in *.
  - by simplify_eq.
  - destruct (Re.findall Re.import_re line) as [|rel_path more]; [by apply IH |].
    destruct (open_r fs _) as [[]|import_f]; [by apply IH | done | done |].
    destruct (recur _ _ _) as [[st1 [[]|imported]]|]; try done; by apply IH.
Qed.

(** A deeper recursion changes no result. *)
Lemma copy_lines_mono recur recur' :
  (∀ path f st r, recur path f st = Some r → recur' path f st = Some r) →
  ∀ name lines success st r,
    copy_lines recur name lines success st = Some r →
    copy_lines recur' name lines success st = Some r.
Proof.
  intros Hrec name lines; induction lines as [|line rest IH]; intros success st r H;
    simpl in *; [done |].
  destruct (Re.findall Re.import_re line) as [|rel_path more]; [by apply IH |].
  destruct (open_r fs _) as [[]|import_f]; [by apply IH | done | done |].
  destruct (recur _ _ _) as [[st1 res]|] eqn:E; [| done].
  rewrite (Hrec _ _ _ _ E).
  destruct res as [[]|imported]; try done; by apply IH.
Qed.

Lemma copy_mono n m name source_f st r :
  n ≤ m → copy n name source_f st = Some r → copy m name source_f st = Some r.
Proof.
  revert m name source_f st r; induction n as [|n IH]; intros m name source_f st r Hle H;
    [done |].
  destruct m as [|m]; [lia |]. simpl in *.
  destruct (copy_lines (copy n) _ _ _ _) as [res|] eqn:E; [| done].
  rewrite (copy_lines_mono (copy n) (copy m)) with (r := res); [done | | done].
  intros; eapply IH; [lia | done].
Qed.

Lemma unresolved_cons name line rest :
  unresolved realpath fs name (line :: rest) ↔
  (∃ rel_path more, Re.findall Re.import_re line = rel_path :: more ∧
     ((∃ e, open_r fs (target name rel_path) = inl e) ∨
      (∃ import_f, open_r fs (target name rel_path) = inr import_f ∧
         unresolved realpath fs (target name rel_path) (lines_of import_f))))
  ∨ unresolved realpath fs name rest.
Proof.
  split.
  - inversion 1 as [? ? l rel more e Hin Hre Hop|? ? l rel more f Hin Hre Hop Hun]; subst;
      apply elem_of_cons in Hin as [->|Hin].
    + left; eauto 8.
    + right; eapply unresolved_here; eauto.
    + left; eauto 8.
    + right; eapply unresolved_below; eauto.
  - intros [(rel & more & Hre & [[e Hop]|(f & Hop & Hun)])|H].
    + eapply unresolved_here; [by left | done..].
    + eapply unresolved_below; [by left | done..].
    + inversion H; subst.
      * eapply unresolved_here; [by right | done..].
      * eapply unresolved_below; [by right | done..].
Qed.

Lemma emitted_cons name line rest l :
  emitted realpath fs name (line :: rest) l ↔
  (l = line ∧ Re.findall Re.import_re line = [])
  ∨ (∃ rel_path more import_f, Re.findall Re.import_re line = rel_path :: more ∧
       open_r fs (target name rel_path) = inr import_f ∧
       emitted realpath fs (target name rel_path) (lines_of import_f) l)
  ∨ emitted realpath fs name rest l.
Proof.
  split.
  - inversion 1 as [? ? ? Hin Hre|? ? d rel more f ? Hin Hre Hop Hem]; subst;
      apply elem_of_cons in Hin as [->|Hin].
    + by left.
    + right; right; by apply emitted_here.
    + right; left; eauto 8.
    + right; right; eapply emitted_below; eauto.
  - intros [[-> Hre]|[(rel & more & f & Hre & Hop & Hem)|H]].
    + apply emitted_here; [by left | done].
    + eapply emitted_below; [by left | done..].
    + inversion H; subst.
      * apply emitted_here; [by right | done].
      * eapply emitted_below; [by right | done..].
Qed.

Lemma refers_nil name path : ¬ refers realpath fs name [] path.
Proof. inversion 1 as [? ? ? ? ? Hin|? ? ? ? ? ? ? Hin]; by apply elem_of_nil in Hin. Qed.

Lemma refers_cons name line rest path :
  refers realpath fs name (line :: rest) path ↔
  (∃ rel_path more, Re.findall Re.import_re line = rel_path :: more ∧
     (target name rel_path = path ∨
      (∃ import_f, open_r fs (target name rel_path) = inr import_f ∧
         refers realpath fs (target name rel_path) (lines_of import_f) path)))
  ∨ refers realpath fs name rest path.
Proof.
  split.
  - inversion 1 as [? ? l rel more Hin Hre|? ? l rel more f ? Hin Hre Hop Href]; subst;
      apply elem_of_cons in Hin as [->|Hin].
    + left; eauto 8.
    + right; eapply refers_here; eauto.
    + left; eauto 8.
    + right; eapply refers_below; eauto.
  - intros [(rel & more & Hre & [<-|(f & Hop & Href)])|H].
    + eapply refers_here; [by left | done].
    + eapply refers_below; [by left | done..].
    + inversion H; subst.
      * eapply refers_here; [by right | done].
      * eapply refers_below; [by right | done..].
Qed.

(** On a finite tree of text files the copy ends, with enough depth: it
    returns, its flag tells whether a directive of the tree was left
    unresolved, and what it wrote holds every line without directive of
    every file of the tree. *)
Lemma copy_lines_completes name lines :
  completes realpath fs name lines →
  ∃ n, ∀ fuel, n ≤ fuel → ∀ success st, ∃ out logs b,
    copy_lines (copy fuel) name lines success st
    = Some (Io (written st +:+ out) (logged st ++ logs), inr (success && b))
    ∧ (b = false ↔ unresolved realpath fs name lines)
    ∧ (∀ l, emitted realpath fs name lines l → ∃ pre post, out = pre +:+ l +:+ post).
Proof.
  induction 1 as [name|name line rest Hre _ [n IH]
                 |name line rel more rest Hre Hop _ [n IH]
                 |name line rel more rest content Hre Hop _ [n1 IH1] _ [n2 IH2]].
  - exists 0; intros fuel _ success st. exists "", [], true. simpl.
    rewrite StrFacts.app_nil_r, app_nil_r, andb_true_r. split; [by destruct st |].
    split; [split; [done |] |].
    + inversion 1 as [? ? ? ? ? ? Hin|? ? ? ? ? ? Hin]; by apply elem_of_nil in Hin.
    + inversion 1 as [? ? ? Hin|? ? ? ? ? ? ? Hin]; by apply elem_of_nil in Hin.
  - exists n; intros fuel Hfuel success st.
    destruct (IH fuel Hfuel success (write line st)) as (out & logs & b & Hrun & Hb & Hem).
    exists (line +:+ out), logs, b. rewrite copy_lines_write, Hrun by done. simpl.
    rewrite StrFacts.app_assoc. split; [done |]. split.
    + rewrite Hb, unresolved_cons. split; [by right |].
      intros [(? & ? & ? & _)|?]; [congruence | done].
    + intros l [[-> _]|[(? & ? & ? & ? & _)|H]]%emitted_cons.
      * by exists "", out.
      * congruence.
      * destruct (Hem l H) as (pre & post & ->).
        exists (line +:+ pre), post. by rewrite StrFacts.app_assoc.
  - exists n; intros fuel Hfuel success st.
    destruct (IH fuel Hfuel false
                (log ERROR ("Couldn't import " +:+ rel +:+ " from " +:+ name) st))
      as (out & logs & b & Hrun & Hb & Hem).
    exists out, ((ERROR, "Couldn't import " +:+ rel +:+ " from " +:+ name) :: logs), false.
    rewrite (copy_lines_missing _ _ _ _ _ _ _ _ Hre Hop), Hrun. simpl.
    rewrite andb_false_r, <- app_assoc. split; [done |]. split.
    + split; [intros _ | done]. eapply unresolved_here; [by left | done..].
    + intros l [[_ ?]|[(? & ? & ? & ? & ? & _)|H]]%emitted_cons; [congruence.. |].
      by apply Hem.
  - exists (S n1 `max` n2); intros fuel Hfuel success st.
    destruct fuel as [|fuel]; [lia |].
    destruct (IH1 fuel ltac:(lia) true st) as (out1 & logs1 & b1 & Hrun1 & Hb1 & Hem1).
    assert (copy (S fuel) (target name rel) (Text content) st
            = Some (Io (written st +:+ out1) (logged st ++ logs1), inr b1)) as Himp.
    { cbn [_copycontent_withimports_tag]. by rewrite Hrun1. }
    destruct (IH2 (S fuel) ltac:(lia) (success && b1)
                (Io (written st +:+ out1) (logged st ++ logs1)))
      as (out2 & logs2 & b2 & Hrun2 & Hb2 & Hem2).
    exists (out1 +:+ out2), (logs1 ++ logs2), (b1 && b2).
    rewrite (copy_lines_import _ _ _ _ _ _ _ _ _ _ _ Hre Hop Himp), Hrun2. simpl.
    rewrite StrFacts.app_assoc, <- app_assoc, andb_assoc. split; [done |]. split.
    + rewrite andb_false_iff, Hb1, Hb2, unresolved_cons. split.
      * intros [H|H]; [left | by right]. exists rel, more. split; [done |]. right. eauto.
      * intros [(rel' & more' & Hre' & [[e Hop']|(f & Hop' & Hun)])|H]; [| | by right];
          rewrite Hre in Hre'; simplify_eq; rewrite Hop in Hop'; simplify_eq. by left.
    + intros l [[_ ?]|[(rel' & more' & f & Hre' & Hop' & H)|H]]%emitted_cons.
      * congruence.
      * rewrite Hre in Hre'; simplify_eq; rewrite Hop in Hop'; simplify_eq.
        destruct (Hem1 l H) as (pre & post & ->).
        exists pre, (post +:+ out2). by rewrite !StrFacts.app_assoc.
      * destruct (Hem2 l H) as (pre & post & ->).
        exists (out1 +:+ pre), post. by rewrite !StrFacts.app_assoc.
Qed.


(** A text file without directive is copied as text mode delivers it. *)
Lemma copy_plain_file fuel name content st :
  0 < fuel →
  (∀ line, line ∈ lines_of (Text content) → Re.findall Re.import_re line = []) →
  copy fuel name (Text content) st
  = Some (Io (written st +:+ Str.text_mode content) (logged st), inr true).
Proof.
  intros Hfuel H. destruct fuel as [|fuel]; [lia |].
  cbn [_copycontent_withimports_tag]. rewrite copy_lines_plain by done.
  cbn [end_of lines_of]. by rewrite StrFacts.concat_splitlines.
Qed.

(** A file whose one directive opens a file that is copied as [out]. *)
Lemma copy_lines_one_import recur name before line after rel_path more import_f out st :
  (∀ l, l ∈ before → Re.findall Re.import_re l = []) →
  (∀ l, l ∈ after → Re.findall Re.import_re l = []) →
  Re.findall Re.import_re line = rel_path :: more →
  open_r fs (target name rel_path) = inr import_f →
  (∀ st, recur (target name rel_path) import_f st
         = Some (Io (written st +:+ out) (logged st), inr true)) →
  copy_lines recur name (before ++ line :: after) true st
  = Some (Io (written st +:+ Str.concat before +:+ out +:+ Str.concat after) (logged st),
          inr true).
Proof.
  intros Hbefore Hafter Hre Hop Hrec.
  rewrite (copy_lines_app _ _ _ _ _ _ _ _ (copy_lines_plain _ _ _ _ _ Hbefore)).
  rewrite (copy_lines_import _ _ _ _ _ _ _ _ _ _ _ Hre Hop (Hrec _)).
  rewrite copy_lines_plain by done. simpl. by rewrite !StrFacts.app_assoc.
Qed.

End CopyFacts.

Lemma open_w_creatable fs path :
  creatable fs path → open_w fs path = inr (<[path := Regular (Text "")]> fs).
Proof. unfold open_w. by intros [->|[f ->]]. Qed.

Lemma open_r_insert_ne fs path path' e :
  path ≠ path' → open_r (<[path' := e]> fs) path = open_r fs path.
Proof. intros H. unfold open_r. by rewrite lookup_insert_ne. Qed.

Lemma open_r_regular fs path f : fs !! path = Some (Regular f) → open_r fs path = inr f.
Proof. unfold open_r. by intros ->. Qed.

(** C8, as the code has it: a text source without import directive is
    copied as text mode delivers it, and the call returns true: the
    destination holds the content of the source with every carriage return
    followed by a line feed, and every other carriage return, written as one
    line feed.  It is identical to the source exactly when the source holds
    no carriage return.  The source and the destination are two paths, and
    the destination can be opened for writing. *)
Theorem import_and_copy_file_plain realpath fuel fs source_path destination_path content :
  0 < fuel →
  source_path ≠ destination_path →
  creatable fs destination_path →
  fs !! source_path = Some (Regular (Text content)) →
  (∀ line, line ∈ lines_of (Text content) → Re.findall Re.import_re line = []) →
  import_and_copy_file realpath fuel fs source_path destination_path
  = Some (Outcome (inr true)
            (<[destination_path := Regular (Text (Str.text_mode content))]> fs) [])
  ∧ (Str.text_mode content = content ↔ Str.free_of [Str.carriage_return] content = true).
Proof.
  intros Hfuel Hne Hdst Hsrc Hplain. split; [| apply StrFacts.text_mode_free].
  unfold import_and_copy_file.
  rewrite open_w_creatable, open_r_insert_ne, (open_r_regular _ _ _ Hsrc) by done.
  rewrite copy_plain_file by done. simpl. by rewrite insert_insert_eq.
Qed.

Lemma import_and_copy_file_plain_witness :
  import_and_copy_file id 1
    {[ "/doc/a.md" := Regular (Text ("Title" +:+ Str.nl +:+ "Body" +:+ Str.nl)) ]}
    "/doc/a.md" "/out/a.md"
  = Some (Outcome (inr true)
            (<["/out/a.md" :=
                 Regular (Text (Str.text_mode ("Title" +:+ Str.nl +:+ "Body" +:+ Str.nl)))]>
               {[ "/doc/a.md" := Regular (Text ("Title" +:+ Str.nl +:+ "Body" +:+ Str.nl)) ]})
            [])
  ∧ (Str.text_mode ("Title" +:+ Str.nl +:+ "Body" +:+ Str.nl)
     = "Title" +:+ Str.nl +:+ "Body" +:+ Str.nl
     ↔ Str.free_of [Str.carriage_return] ("Title" +:+ Str.nl +:+ "Body" +:+ Str.nl) = true).
Proof.
  apply import_and_copy_file_plain.
  - lia.
  - by vm_compute.
  - left. by vm_compute.
  - by vm_compute.
  - intros line Hin. vm_compute in Hin.
    apply elem_of_cons in Hin as [->|Hin]; [reflexivity |].
    apply elem_of_cons in Hin as [->|Hin]; [reflexivity |].
    by apply elem_of_nil in Hin.
Defined.

(** A text source whose lines end with a carriage return and a line feed,
    without directive: the call returns true, and the destination holds
    the lines ended by a line feed alone, which is not the content of the
    source. *)
Lemma import_and_copy_file_plain_counterexample :
  (∀ line, line ∈ lines_of (Text crlf_doc) → Re.findall Re.import_re line = [])
  ∧ ∃ o, import_and_copy_file id 1 crlf_fs "/doc/a.md" "/out/a.md" = Some o
         ∧ result o = inr true
         ∧ files o !! "/doc/a.md" = Some (Regular (Text crlf_doc))
         ∧ files o !! "/out/a.md"
           = Some (Regular (Text ("Title" +:+ Str.nl +:+ "Body" +:+ Str.nl)))
         ∧ "Title" +:+ Str.nl +:+ "Body" +:+ Str.nl ≠ crlf_doc.
Proof.
  split.
  - intros line Hin. vm_compute in Hin.
    apply elem_of_cons in Hin as [->|Hin]; [reflexivity |].
    apply elem_of_cons in Hin as [->|Hin]; [reflexivity |].
    by apply elem_of_nil in Hin.
  - eexists. by vm_compute.
Qed.

(** C5, as the code has it: when the source is not found, the call logs the
    error and returns false, and the destination, opened before the source,
    is left as an empty file. *)
Theorem import_and_copy_file_source_missing realpath fuel fs source_path destination_path :
  open_r fs source_path = inl FileNotFoundError →
  source_path ≠ destination_path →
  creatable fs destination_path →
  import_and_copy_file realpath fuel fs source_path destination_path
  = Some (Outcome (inr false) (<[destination_path := Regular (Text "")]> fs)
            [(ERROR, "Couldn't open " +:+ source_path)]).
Proof.
  intros Hsrc Hne Hdst. unfold import_and_copy_file.
  by rewrite open_w_creatable, open_r_insert_ne, Hsrc by done.
Qed.

Lemma import_and_copy_file_source_missing_witness :
  import_and_copy_file id 0 ∅ "/doc/a.md" "/out/a.md"
  = Some (Outcome (inr false) (<["/out/a.md" := Regular (Text "")]> ∅)
            [(ERROR, "Couldn't open " +:+ "/doc/a.md")]).
Proof.
  apply import_and_copy_file_source_missing.
  - reflexivity.
  - by vm_compute.
  - by left.
Defined.

(** The destination exists once the call on a missing source is over. *)
Lemma import_and_copy_file_source_missing_counterexample :
  open_r ∅ "/doc/a.md" = inl FileNotFoundError
  ∧ ∃ o, import_and_copy_file id 1 ∅ "/doc/a.md" "/out/a.md" = Some o
         ∧ result o = inr false
         ∧ files o !! "/out/a.md" = Some (Regular (Text ""))
         ∧ files o !! "/out/a.md" ≠ None.
Proof. split; [reflexivity |]. eexists. by vm_compute. Qed.

(** C2: a text file A with one directive, referring to a text file B with one
    directive, referring to a text file C without any: the call returns true,
    and the destination holds the lines of A with the directive line replaced
    by the lines of B, the directive line of which is replaced by the content
    of C.  Each path is taken relative to the real directory of the file
    that holds the directive; the lines and the content are those text mode
    delivers. *)
Theorem import_and_copy_file_transitive realpath fs a destination_path
    content_a before_a line_a after_a rel_b more_b
    content_b before_b line_b after_b rel_c more_c content_c fuel :
  let b := target realpath a rel_b in
  let c := target realpath b rel_c in
  creatable fs destination_path →
  a ≠ destination_path → b ≠ destination_path → c ≠ destination_path →
  fs !! a = Some (Regular (Text content_a)) →
  fs !! b = Some (Regular (Text content_b)) →
  fs !! c = Some (Regular (Text content_c)) →
  lines_of (Text content_a) = before_a ++ line_a :: after_a →
  lines_of (Text content_b) = before_b ++ line_b :: after_b →
  Re.findall Re.import_re line_a = rel_b :: more_b →
  Re.findall Re.import_re line_b = rel_c :: more_c →
  (∀ l, l ∈ before_a ++ after_a ++ before_b ++ after_b ++ lines_of (Text content_c) →
        Re.findall Re.import_re l = []) →
  3 ≤ fuel →
  import_and_copy_file realpath fuel fs a destination_path
  = Some (Outcome (inr true)
            (<[destination_path :=
                 Regular (Text (Str.concat before_a
                                +:+ (Str.concat before_b +:+ Str.text_mode content_c
                                     +:+ Str.concat after_b)
                                +:+ Str.concat after_a))]> fs)
            []).
Proof.
  intros b c Hdst Ha Hb Hc Hfa Hfb Hfc Hla Hlb Hra Hrb Hplain Hfuel.
  destruct fuel as [|[|[|fuel]]]; [lia.. |].
  unfold import_and_copy_file.
  rewrite open_w_creatable, open_r_insert_ne, (open_r_regular _ _ _ Hfa) by done.
  set (fs1 := <[destination_path := Regular (Text "")]> fs).
  assert (∀ st, _copycontent_withimports_tag realpath fs1 (S fuel) c (Text content_c) st
                = Some (Io (written st +:+ Str.text_mode content_c) (logged st), inr true))
    as Hcopy_c.
  { intros st. apply copy_plain_file; [lia |].
    intros l Hl. apply Hplain. rewrite !elem_of_app. auto. }
  assert (∀ st, _copycontent_withimports_tag realpath fs1 (S (S fuel)) b (Text content_b) st
                = Some (Io (written st +:+ (Str.concat before_b +:+ Str.text_mode content_c
                                            +:+ Str.concat after_b)) (logged st),
                        inr true)) as Hcopy_b.
  { intros st. cbn [_copycontent_withimports_tag]. rewrite Hlb.
    rewrite (copy_lines_one_import realpath fs1 _ b before_b line_b after_b rel_c more_c
               (Text content_c) (Str.text_mode content_c)).
    - done.
    - intros l Hl. apply Hplain. rewrite !elem_of_app. auto.
    - intros l Hl. apply Hplain. rewrite !elem_of_app. auto 6.
    - done.
    - unfold fs1. rewrite open_r_insert_ne by done. by apply open_r_regular.
    - apply Hcopy_c. }
  cbn [_copycontent_withimports_tag]. rewrite Hla.
  rewrite (copy_lines_one_import realpath fs1 _ a before_a line_a after_a rel_b more_b
             (Text content_b)
             (Str.concat before_b +:+ Str.text_mode content_c +:+ Str.concat after_b)).
  - simpl. unfold fs1. by rewrite insert_insert_eq.
  - intros l Hl. apply Hplain. rewrite !elem_of_app. auto.
  - intros l Hl. apply Hplain. rewrite !elem_of_app. auto.
  - done.
  - unfold fs1. rewrite open_r_insert_ne by done. by apply open_r_regular.
  - apply Hcopy_b.
Qed.

(** Membership in a list given in full. *)
Ltac elem_cases H :=
  vm_compute in H;
  repeat (apply elem_of_cons in H as [->|H]; [reflexivity |]);
  by apply elem_of_nil in H.

Lemma import_and_copy_file_transitive_witness :
  import_and_copy_file id 3 chain_fs "/d/a.md" "/out/a.md"
  = Some (Outcome (inr true)
            (<["/out/a.md" :=
                 Regular (Text ("a1" +:+ Str.nl +:+ "b1" +:+ Str.nl +:+ "c1" +:+ Str.nl
                                +:+ "b2" +:+ Str.nl +:+ "a2" +:+ Str.nl))]> chain_fs)
            []).
Proof.
  apply (import_and_copy_file_transitive id chain_fs "/d/a.md" "/out/a.md"
           chain_a ["a1" +:+ Str.nl] ("##IMPORT sub/b.md" +:+ Str.nl) ["a2" +:+ Str.nl]
           "sub/b.md" []
           chain_b ["b1" +:+ Str.nl] ("##IMPORT inc/c.md" +:+ Str.nl) ["b2" +:+ Str.nl]
           "inc/c.md" [] chain_c 3).
  - left. by vm_compute.
  - by vm_compute.
  - by vm_compute.
  - by vm_compute.
  - by vm_compute.
  - by vm_compute.
  - by vm_compute.
  - by vm_compute.
  - by vm_compute.
  - by vm_compute.
  - by vm_compute.
  - intros l Hl. elem_cases Hl.
  - lia.
Defined.

(** C1, on a finite tree of text files that does not refer to the
    destination: with enough depth for the tree the call returns, false
    exactly when some directive of the tree, nested ones included, refers to
    a file that could not be opened; the destination holds every line
    without directive of every file of the tree, whether or not a directive
    failed.  The tree is the one the copy reads, the destination being
    emptied first. *)
Theorem import_and_copy_file_success realpath fs source_path destination_path content :
  creatable fs destination_path →
  source_path ≠ destination_path →
  fs !! source_path = Some (Regular (Text content)) →
  completes realpath (<[destination_path := Regular (Text "")]> fs)
    source_path (lines_of (Text content)) →
  ¬ refers realpath (<[destination_path := Regular (Text "")]> fs)
      source_path (lines_of (Text content)) destination_path →
  ∃ n, ∀ fuel, n ≤ fuel → ∃ success out logs,
    import_and_copy_file realpath fuel fs source_path destination_path
    = Some (Outcome (inr success) (<[destination_path := Regular (Text out)]> fs) logs)
    ∧ (success = false ↔
       unresolved realpath (<[destination_path := Regular (Text "")]> fs)
         source_path (lines_of (Text content)))
    ∧ (∀ line,
         emitted realpath (<[destination_path := Regular (Text "")]> fs)
           source_path (lines_of (Text content)) line →
         ∃ pre post, out = pre +:+ line +:+ post).
Proof.
  intros Hdst Hne Hsrc Htree _.
  destruct (copy_lines_completes _ _ _ _ Htree) as [n Hn].
  exists (S n); intros fuel Hfuel. destruct fuel as [|fuel]; [lia |].
  destruct (Hn fuel ltac:(lia) true (Io "" [])) as (out & logs & b & Hrun & Hb & Hem).
  exists b, out, logs. split; [| done].
  unfold import_and_copy_file.
  rewrite open_w_creatable, open_r_insert_ne, (open_r_regular _ _ _ Hsrc) by done.
  cbn [_copycontent_withimports_tag]. rewrite Hrun. simpl. by rewrite insert_insert_eq.
Qed.

Lemma import_and_copy_file_success_witness :
  ∃ n, ∀ fuel, n ≤ fuel → ∃ success out logs,
    import_and_copy_file id fuel partial_fs "/d/a.md" "/out/a.md"
    = Some (Outcome (inr success) (<["/out/a.md" := Regular (Text out)]> partial_fs) logs)
    ∧ (success = false ↔
       unresolved id (<["/out/a.md" := Regular (Text "")]> partial_fs)
         "/d/a.md" (lines_of (Text partial_a)))
    ∧ (∀ line,
         emitted id (<["/out/a.md" := Regular (Text "")]> partial_fs)
           "/d/a.md" (lines_of (Text partial_a)) line →
         ∃ pre post, out = pre +:+ line +:+ post).
Proof.
  apply import_and_copy_file_success.
  - left. by vm_compute.
  - by vm_compute.
  - by vm_compute.
  - change (lines_of (Text partial_a))
      with ["a1" +:+ Str.nl; "##IMPORT b.md" +:+ Str.nl; "a2" +:+ Str.nl].
    apply completes_copy; [by vm_compute |].
    eapply completes_import with (content := partial_b); [by vm_compute | by vm_compute | |].
    + change (lines_of (Text partial_b))
        with ["b1" +:+ Str.nl; "##IMPORT missing.md" +:+ Str.nl; "b2" +:+ Str.nl].
      apply completes_copy; [by vm_compute |].
      eapply completes_missing; [by vm_compute | by vm_compute |].
      apply completes_copy; [by vm_compute |]. apply completes_nil.
    + apply completes_copy; [by vm_compute |]. apply completes_nil.
  - change (lines_of (Text partial_a))
      with ["a1" +:+ Str.nl; "##IMPORT b.md" +:+ Str.nl; "a2" +:+ Str.nl].
    intros H.
    apply refers_cons in H as [(rel & more & Hre & _)|H]; [by vm_compute in Hre |].
    apply refers_cons in H as [(rel & more & Hre & H)|H].
    + vm_compute in Hre. injection Hre as <- <-.
      destruct H as [H|(f & Hop & H)]; [by vm_compute in H |].
      assert (inr (Text partial_b) = (inr f : exn + file)) as [= <-]
        by (rewrite <- Hop; by vm_compute).
      change (lines_of (Text partial_b))
        with ["b1" +:+ Str.nl; "##IMPORT missing.md" +:+ Str.nl; "b2" +:+ Str.nl] in H.
      apply refers_cons in H as [(rel & more & Hre & _)|H]; [by vm_compute in Hre |].
      apply refers_cons in H as [(rel & more & Hre & H)|H].
      * vm_compute in Hre. injection Hre as <- <-.
        destruct H as [H|(f & Hop' & _)]; [by vm_compute in H | by vm_compute in Hop'].
      * apply refers_cons in H as [(rel & more & Hre & _)|H]; [by vm_compute in Hre |].
        by apply refers_nil in H.
    + apply refers_cons in H as [(rel & more & Hre & _)|H]; [by vm_compute in Hre |].
      by apply refers_nil in H.
Defined.

(** Two calls on a readable text source.  The first returns true although
    its first directive refers to a file that does not exist: the
    undecodable file imported next makes the call fall back to the plain
    copy.  The second returns false although the source has no directive:
    the destination lies in a directory that does not exist. *)
Lemma import_and_copy_file_success_counterexample :
  (unresolved id (<["/out/d.md" := Regular (Text "")]> mixed_fs)
     "/d/d.md" (lines_of (Text mixed_d))
   ∧ ∃ o, import_and_copy_file id 2 mixed_fs "/d/d.md" "/out/d.md" = Some o
          ∧ result o = inr true)
  ∧ ((∀ line, line ∈ lines_of (Text chain_c) → Re.findall Re.import_re line = [])
     ∧ ∃ o, import_and_copy_file id 2 (<["/none/c.md" := NoParent]> chain_fs)
              "/d/sub/inc/c.md" "/none/c.md" = Some o
            ∧ result o = inr false).
Proof.
  split; split.
  - eapply unresolved_here with (line := "##IMPORT missing.md" +:+ Str.nl)
                                (e := FileNotFoundError);
      [| by vm_compute | by vm_compute].
    change (lines_of (Text mixed_d))
      with ["##IMPORT missing.md" +:+ Str.nl; "##IMPORT logo.png" +:+ Str.nl; "d" +:+ Str.nl].
    by left.
  - eexists. by vm_compute.
  - intros line Hin. elem_cases Hin.
  - eexists. by vm_compute.
Qed.



(** ** Token substituter *)

Module ScanFacts.

Lemma free_of_app cs a b :
  Str.free_of cs (a +:+ b) = Str.free_of cs a && Str.free_of cs b.
Proof. induction a as [|x a IH]; simpl; [done | by rewrite IH, andb_assoc]. Qed.

Lemma free_of_weaken cs cs' s :
  cs' ⊆ cs → Str.free_of cs s = true → Str.free_of cs' s = true.
Proof.
  intros Hsub. induction s as [|x s IH]; simpl; [done |].
  rewrite !andb_true_iff, !bool_decide_eq_true. intros [Hx Hs]. split; [| by apply IH].
  intros Hin. by apply Hx, Hsub.
Qed.

(** What a greedy class takes and what it leaves make up the text. *)
Lemma span_app keep s run rest : Str.span keep s = (run, rest) → s = run +:+ rest.
Proof.
  revert run rest; induction s as [|a s IH]; simpl; intros run rest H; [by simplify_eq |].
  destruct (keep a); [| by simplify_eq].
  destruct (Str.span keep s) as [run' rest']. simplify_eq. simpl. by rewrite (IH run' rest).
Qed.

(** The class of a placeholder name stops at the closing character. *)
Lemma span_name o c name rest :
  Str.free_of [o; c] name = true →
  Str.span (λ x, bool_decide (x ≠ o) && bool_decide (x ≠ c)) (name +:+ String c rest)
  = (name, String c rest).
Proof.
  induction name as [|a name IH]; simpl.
  - intros _. rewrite (bool_decide_eq_false_2 (c ≠ c)) by auto. by rewrite andb_false_r.
  - rewrite andb_true_iff, bool_decide_eq_true. intros [Ha Hname].
    rewrite !bool_decide_eq_true_2, IH; [done.. | |]; intros ->; apply Ha; rewrite !elem_of_cons; tauto.
Qed.

Lemma findall_skip match_at x r :
  Re.findall_from match_at (String.length x) (x +:+ r) = Re.findall_from match_at 0 r.
Proof. induction x as [|a x IH]; simpl; [by destruct r | done]. Qed.

Lemma replace_skip old new x r :
  Str.replace_from old new (String.length x) (x +:+ r) = Str.replace_from old new 0 r.
Proof. induction x as [|a x IH]; simpl; [by destruct r | done]. Qed.

(** The two equations of [replace]. *)
Lemma replace_match a old new r :
  Str.replace (String a old) new (String a old +:+ r)
  = new +:+ Str.replace (String a old) new r.
Proof.
  unfold Str.replace. change (String a old +:+ r) with (String a (old +:+ r)).
  cbn [Str.replace_from].
  change (String a (old +:+ r)) with (String a old +:+ r) at 1.
  rewrite StrFacts.startswith_app.
  replace (String.length (String a old) - 1) with (String.length old) by (simpl; lia).
  by rewrite replace_skip.
Qed.

Lemma replace_no_match a old new x s :
  Str.startswith (String a old) (String x s) = false →
  Str.replace (String a old) new (String x s) = String x (Str.replace (String a old) new s).
Proof. intros H. unfold Str.replace. cbn [Str.replace_from]. by rewrite H. Qed.

Lemma replace_empty a old new : Str.replace (String a old) new "" = "".
Proof. done. Qed.

(** Text in which the first character of [old] does not occur is kept. *)
Lemma replace_free a old new x r :
  Str.free_of [a] x = true →
  Str.replace (String a old) new (x +:+ r) = x +:+ Str.replace (String a old) new r.
Proof.
  induction x as [|b x IH]; [done |]. cbn [Str.free_of].
  rewrite andb_true_iff, bool_decide_eq_true. intros [Hb Hx].
  change (String b x +:+ r) with (String b (x +:+ r)).
  rewrite replace_no_match, IH; [done.. |].
  cbn [Str.startswith]. rewrite decide_False; [done |]. intros ->. apply Hb. by left.
Qed.

End ScanFacts.

Section Pass.

(** The opening and the closing character of one kind of placeholder. *)
Variables o c : ascii.
Hypothesis Hoc : o ≠ c.

Local Abbreviation plain s := (Str.free_of [o; c] s = true).
Local Abbreviation fmt name := (delim o +:+ name +:+ delim c).

Lemma plain_no_open s : plain s → Str.free_of [o] s = true.
Proof.
  apply ScanFacts.free_of_weaken. intros x Hx.
  apply list_elem_of_singleton in Hx as ->. by left.
Qed.

Lemma delim_close_no_open : Str.free_of [o] (delim c) = true.
Proof.
  simpl. rewrite bool_decide_eq_true_2; [done |]. intros H. apply list_elem_of_singleton in H. by apply Hoc.
Qed.

(** *** What [findall] finds *)

Lemma variable_re_text a s : a ≠ o → Re.variable_re o c (String a s) = None.
Proof.
  intros Ha. unfold Re.variable_re. destruct s as [|b s]; [done |].
  by rewrite (bool_decide_eq_false_2 (a = o)).
Qed.

Lemma findall_text x r :
  Str.free_of [o] x = true →
  Re.findall_from (Re.variable_re o c) 0 (x +:+ r)
  = Re.findall_from (Re.variable_re o c) 0 r.
Proof.
  induction x as [|a x IH]; [done |]. cbn [Str.free_of].
  rewrite andb_true_iff, bool_decide_eq_true. intros [Ha Hx].
  change (String a x +:+ r) with (String a (x +:+ r)). cbn [Re.findall_from].
  rewrite variable_re_text; [by apply IH |]. intros ->. apply Ha. by left.
Qed.

Lemma variable_re_placeholder name r :
  plain name →
  Re.variable_re o c (fmt name +:+ r) = Some (name, 4 + String.length name).
Proof.
  intros Hname. unfold Re.variable_re, delim. simpl.
  rewrite !bool_decide_eq_true_2 by done. simpl.
  rewrite StrFacts.app_assoc. simpl.
  rewrite ScanFacts.span_name by done. simpl. by rewrite !decide_True.
Qed.

Lemma findall_placeholder name r :
  plain name →
  Re.findall_from (Re.variable_re o c) 0 (fmt name +:+ r)
  = name :: Re.findall_from (Re.variable_re o c) 0 r.
Proof.
  intros Hname.
  assert (fmt name +:+ r = String o (String o (name +:+ delim c) +:+ r)) as E by done.
  rewrite E at 1. cbn [Re.findall_from]. rewrite <- E.
  rewrite variable_re_placeholder by done. f_equal.
  replace (4 + String.length name - 1) with (String.length (String o (name +:+ delim c)))
    by (simpl; rewrite StrFacts.length_app; simpl; lia).
  apply ScanFacts.findall_skip.
Qed.

Lemma findall_items its :
  Forall (item_ok o c) its →
  Re.findall (Re.variable_re o c) (render_items o c its) = names its.
Proof.
  unfold Re.findall, render_items.
  induction 1 as [|[text|name] its Hit _ IH]; [done | |]; cbn [fmap list_fmap Str.concat render_item names].
  - rewrite findall_text; [done | by apply plain_no_open].
  - rewrite findall_placeholder by done. by f_equal.
Qed.

(** *** What [replace] replaces *)

(** A placeholder starts with the pattern of [k] only when its name is [k]. *)
Lemma startswith_name k name r :
  plain k → plain name →
  Str.startswith (k +:+ delim c) (name +:+ delim c +:+ r) = true → k = name.
Proof.
  revert name; induction k as [|a k IH]; intros [|b name]; cbn [Str.free_of];
    rewrite ?andb_true_iff, ?bool_decide_eq_true.
  - done.
  - intros _ [Hb _]. simpl. destruct (decide (c = b)) as [<-|]; [| done].
    exfalso. apply Hb. rewrite !elem_of_cons; tauto.
  - intros [Ha _] _. simpl. destruct (decide (a = c)) as [->|]; [| done].
    exfalso. apply Ha. rewrite !elem_of_cons; tauto.
  - intros [_ Hk] [_ Hname]. simpl. destruct (decide (a = b)) as [->|]; [| done].
    intros H. f_equal. by apply IH.
Qed.

Lemma replace_placeholder_eq k v r :
  Str.replace (fmt k) v (fmt k +:+ r) = v +:+ Str.replace (fmt k) v r.
Proof. apply ScanFacts.replace_match. Qed.

Lemma replace_placeholder_ne k name v r :
  plain k → plain name → name ≠ k →
  Str.replace (fmt k) v (fmt name +:+ r) = fmt name +:+ Str.replace (fmt k) v r.
Proof.
  intros Hk Hname Hne.
  assert (fmt name +:+ r = String o (String o ((name +:+ delim c) +:+ r))) as -> by done.
  assert (fmt k = String o (String o (k +:+ delim c))) as -> by done.
  rewrite ScanFacts.replace_no_match.
  2:{ cbn [Str.startswith]. rewrite !decide_True by done.
      apply not_true_is_false. rewrite StrFacts.app_assoc.
      intros H%startswith_name; [| done..]. by apply Hne. }
  rewrite ScanFacts.replace_no_match.
  2:{ cbn [Str.startswith]. rewrite decide_True by done.
      destruct name as [|b name]; simpl.
      - by rewrite decide_False.
      - rewrite decide_False; [done |]. intros <-.
        cbn [Str.free_of] in Hname. apply andb_true_iff in Hname as [Hb _].
        apply bool_decide_eq_true in Hb. apply Hb. by left. }
  rewrite ScanFacts.replace_free; [done |].
  rewrite ScanFacts.free_of_app, plain_no_open, delim_close_no_open; done.
Qed.

Lemma replace_items k v its :
  plain k →
  Forall (item_ok o c) its →
  Str.replace (fmt k) v (render_items o c its) = render_items o c (subst1 k v <$> its).
Proof.
  intros Hk. unfold render_items.
  induction 1 as [|[text|name] its Hit _ IH]; [done | |];
    cbn [fmap list_fmap Str.concat render_item subst1].
  - change (list_fmap _ _ (subst1 k v) its) with (subst1 k v <$> its).
    change (list_fmap _ _ (render_item o c) ?l) with (render_item o c <$> l).
    rewrite <- IH. apply ScanFacts.replace_free. by apply plain_no_open.
  - change (list_fmap _ _ (subst1 k v) its) with (subst1 k v <$> its).
    change (list_fmap _ _ (render_item o c) ?l) with (render_item o c <$> l).
    destruct (decide (name = k)) as [->|Hne]; cbn [render_item].
    + by rewrite replace_placeholder_eq, IH.
    + by rewrite replace_placeholder_ne, IH.
Qed.

(** *** One pass *)

Lemma fill_subst1 device_vars k (its : list (string + string)) :
  fill device_vars <$> (subst1 k (value device_vars k) <$> its) = fill device_vars <$> its.
Proof.
  rewrite <- list_fmap_compose. apply list_fmap_ext. intros _ [text|name] _; simpl; [done |].
  by destruct (decide (name = k)) as [->|].
Qed.

Lemma item_ok_subst1 k v (its : list (string + string)) :
  plain v → Forall (item_ok o c) its → Forall (item_ok o c) (subst1 k v <$> its).
Proof.
  intros Hv. induction 1 as [|[text|name] its Hit _ IH]; constructor; try done.
  simpl. by destruct (decide (name = k)).
Qed.

Lemma names_subst1 k v (its : list (string + string)) name :
  name ∈ names (subst1 k v <$> its) → name ∈ names its ∧ name ≠ k.
Proof.
  induction its as [|[text|n] its IH]; simpl; [by intros ?%elem_of_nil | done |].
  destruct (decide (n = k)) as [->|Hne]; simpl.
  - intros [? ?]%IH. split; [by right | done].
  - intros [->|[? ?]%IH]%elem_of_cons; (split; [by constructor | done]).
Qed.

Lemma render_items_text device_vars its :
  names its = [] → render_items o c its = Str.concat (fill device_vars <$> its).
Proof.
  intros H. unfold render_items. f_equal.
  induction its as [|[text|name] its IH]; simpl in *; [done | | done].
  f_equal. by apply IH.
Qed.

(** The loop of [_replace_from_map] over the keywords [ks], on a line of
    text and placeholders. *)
Lemma replace_from_map_loop device_vars ks its unfound :
  Forall (item_ok o c) its →
  (∀ k, k ∈ ks → plain k ∧ plain (value device_vars k)) →
  (∀ name, name ∈ names its → name ∈ ks) →
  fold_left
    (λ '(line, unfound_keywords_list) keyword,
       match device_vars !! keyword with
       | Some replace_with =>
           (Str.replace (format1 (delim o, delim c) keyword) replace_with line,
            unfound_keywords_list)
       | None =>
           (Str.replace (format1 (delim o, delim c) keyword) "" line,
            unfound_keywords_list ++ [keyword])
       end)
    ks (render_items o c its, unfound)
  = (Str.concat (fill device_vars <$> its),
     unfound ++ filter (λ k, device_vars !! k = None) ks).
Proof.
  revert its unfound; induction ks as [|k ks IH]; intros its unfound Hok Hks Hnames.
  - simpl. rewrite app_nil_r. f_equal. apply render_items_text.
    destruct (names its) as [|name ?]; [done |].
    specialize (Hnames name ltac:(by left)). by apply elem_of_nil in Hnames.
  - destruct (Hks k ltac:(by left)) as [Hk Hv].
    cbn [fold_left]. unfold format1. cbn [fst snd].
    assert (∀ u, fold_left
              (λ '(line, unfound_keywords_list) keyword,
                 match device_vars !! keyword with
                 | Some replace_with =>
                     (Str.replace (format1 (delim o, delim c) keyword) replace_with line,
                      unfound_keywords_list)
                 | None =>
                     (Str.replace (format1 (delim o, delim c) keyword) "" line,
                      unfound_keywords_list ++ [keyword])
                 end)
              ks (render_items o c (subst1 k (value device_vars k) <$> its), u)
            = (Str.concat (fill device_vars <$> its),
               u ++ filter (λ k, device_vars !! k = None) ks)) as Hrest.
    { intros u. rewrite IH.
      - by rewrite fill_subst1.
      - by apply item_ok_subst1.
      - intros k' Hk'. apply Hks. by right.
      - intros name [Hin Hne]%names_subst1.
        apply Hnames, elem_of_cons in Hin as [->|Hin]; done. }
    unfold value in Hrest, Hv.
    destruct (device_vars !! k) as [v|] eqn:Hlookup; simpl in Hrest, Hv.
    + rewrite replace_items by done. rewrite Hrest.
      by rewrite filter_cons_False by (by rewrite Hlookup).
    + rewrite replace_items by done. rewrite Hrest.
      rewrite filter_cons_True by done. by rewrite <- app_assoc.
Qed.

(** [_replace_from_map] on a line of text and placeholders: every
    placeholder gives way to its value, and the names without mapping are
    reported in their order. *)
Lemma replace_from_map_items device_vars its :
  Forall (item_ok o c) its →
  (∀ name, name ∈ names its → plain name ∧ plain (value device_vars name)) →
  _replace_from_map (render_items o c its) (Re.variable_re o c) (delim o, delim c) device_vars
  = (Str.concat (fill device_vars <$> its),
     filter (λ k, device_vars !! k = None) (names its)).
Proof.
  intros Hok Hnames. unfold _replace_from_map. rewrite findall_items by done.
  by rewrite replace_from_map_loop.
Qed.

End Pass.

(** *** The two passes on a line of tokens *)

Section Tokens.

Variable device_vars : gmap string string.

Lemma clean_angle s : clean s = true → Str.free_of ["<"; ">"]%char s = true.
Proof.
  apply ScanFacts.free_of_weaken. intros x. rewrite !elem_of_cons, !elem_of_nil. tauto.
Qed.

Lemma clean_square s : clean s = true → Str.free_of ["["; "]"]%char s = true.
Proof.
  apply ScanFacts.free_of_weaken. intros x. rewrite !elem_of_cons, !elem_of_nil. tauto.
Qed.

Lemma render_optional_view ts :
  render_items "<" ">" (optional_view <$> ts) = render ts.
Proof.
  unfold render_items, render. f_equal. rewrite <- list_fmap_compose.
  apply list_fmap_ext. by intros _ [text|name|name] _.
Qed.

Lemma fill_optional_view ts :
  Str.concat (fill device_vars <$> (optional_view <$> ts))
  = render_items "[" "]" (required_view device_vars <$> ts).
Proof.
  unfold render_items. f_equal. rewrite <- !list_fmap_compose.
  apply list_fmap_ext. by intros _ [text|name|name] _.
Qed.

Lemma fill_required_view ts :
  Str.concat (fill device_vars <$> (required_view device_vars <$> ts))
  = substitute device_vars ts.
Proof.
  unfold substitute. f_equal. rewrite <- !list_fmap_compose.
  apply list_fmap_ext. by intros _ [text|name|name] _.
Qed.

Lemma names_required_view ts :
  names (required_view device_vars <$> ts) = required_names ts.
Proof. induction ts as [|[text|name|name] ts IH]; simpl; [done | | f_equal |]; apply IH. Qed.

Lemma names_optional_view ts name :
  name ∈ names (optional_view <$> ts) → Opt name ∈ ts.
Proof.
  induction ts as [|[text|n|n] ts IH]; simpl.
  - by intros ?%elem_of_nil.
  - intros ?%IH. by right.
  - intros ?%IH. by right.
  - intros [->|?%IH]%elem_of_cons; [by left | by right].
Qed.

Lemma names_required_token ts name :
  name ∈ required_names ts → Req name ∈ ts.
Proof.
  induction ts as [|[text|n|n] ts IH]; simpl.
  - by intros ?%elem_of_nil.
  - intros ?%IH. by right.
  - intros [->|?%IH]%elem_of_cons; [by left | by right].
  - intros ?%IH. by right.
Qed.

Lemma filter_unmapped ks :
  bool_decide (filter (λ k, device_vars !! k = None) ks = [])
  = forallb (λ name, bool_decide (is_Some (device_vars !! name))) ks.
Proof.
  induction ks as [|k ks IH]; [done |]. simpl.
  destruct (device_vars !! k) as [v|] eqn:E.
  - rewrite filter_cons_False by (by rewrite E). rewrite IH.
    by rewrite bool_decide_eq_true_2 by eauto.
  - rewrite filter_cons_True by done.
    rewrite (bool_decide_eq_false_2 (is_Some None)) by (by intros [? ?]). done.
Qed.

(** On a line of plain text and placeholders, with names and values free
    of the characters of the placeholders, [_replace_line_content] puts the
    value of every placeholder in its place, and succeeds when every
    required name has a mapping. *)
Lemma replace_line_content_tokens ts filename device_name :
  Forall (λ t, clean_token device_vars t = true) ts →
  (_replace_line_content (render ts) filename device_name device_vars).1
  = (substitute device_vars ts, all_mapped device_vars ts).
Proof.
  intros Hclean. unfold _replace_line_content.
  rewrite <- render_optional_view.
  change ("<<", ">>") with (delim "<", delim ">").
  change Re.optional_variable_re with (Re.variable_re "<" ">").
  rewrite replace_from_map_items; [| done | |].
  - rewrite fill_optional_view.
    change ("[[", "]]") with (delim "[", delim "]").
    change Re.required_variable_re with (Re.variable_re "[" "]").
    rewrite replace_from_map_items; [| done | |].
    + cbn [fst]. rewrite fill_required_view, names_required_view.
      unfold all_mapped. by rewrite filter_unmapped.
    + rewrite Forall_fmap. eapply Forall_impl; [exact Hclean |].
      intros [text|name|name]; simpl; rewrite ?andb_true_iff.
      * apply clean_square.
      * intros [? _]. by apply clean_square.
      * intros [_ ?]. by apply clean_square.
    + intros name. rewrite names_required_view. intros Hin%names_required_token.
      rewrite Forall_forall in Hclean. specialize (Hclean _ Hin). simpl in Hclean.
      apply andb_true_iff in Hclean as [? ?]. split; by apply clean_square.
  - rewrite Forall_fmap. eapply Forall_impl; [exact Hclean |].
    intros [text|name|name]; simpl; rewrite ?andb_true_iff.
    + apply clean_angle.
    + intros [Hname _]. rewrite !ScanFacts.free_of_app, (clean_angle _ Hname). done.
    + intros [? _]. by apply clean_angle.
  - intros name Hin%names_optional_view.
    rewrite Forall_forall in Hclean. specialize (Hclean _ Hin). simpl in Hclean.
    apply andb_true_iff in Hclean as [? ?]. split; by apply clean_angle.
Qed.

Lemma replace_variables_loop_tokens path device_name success tss :
  Forall (Forall (λ t, clean_token device_vars t = true)) tss →
  (replace_variables_loop path device_name device_vars success (render <$> tss)).1
  = (success && forallb (all_mapped device_vars) tss, substitute device_vars <$> tss).
Proof.
  intros H; revert success; induction H as [|ts tss Hts _ IH]; intros success; simpl.
  - by rewrite andb_true_r.
  - pose proof (replace_line_content_tokens ts path device_name Hts) as Hline.
    destruct (_replace_line_content _ _ _ _) as [[line new_success] logged].
    simpl in Hline. simplify_eq.
    specialize (IH (all_mapped device_vars ts && success)).
    destruct (replace_variables_loop _ _ _ _ _) as [[success' written'] logged'].
    simpl in *. simplify_eq. f_equal.
    rewrite andb_assoc. f_equal. apply andb_comm.
Qed.

(** *** Values that hold placeholders *)

Lemma render_items_app o c (its its' : list (string + string)) :
  render_items o c (its ++ its') = render_items o c its +:+ render_items o c its'.
Proof. unfold render_items. by rewrite fmap_app, StrFacts.concat_app. Qed.

(** A value made of plain text and required placeholders, as the pass over
    the required placeholders sees it. *)
Lemma render_no_optional ps :
  Forall (λ t, no_optional t && well_written t = true) ps →
  render_items "[" "]" (required_view device_vars <$> ps) = render ps.
Proof.
  unfold render_items, render. intros H. f_equal. rewrite <- list_fmap_compose.
  induction H as [|[text|name|name] ps Ht _ IH]; [done | | | done];
    rewrite !fmap_cons; by f_equal.
Qed.

Lemma free_angle_no_optional ps :
  Forall (λ t, no_optional t && well_written t = true) ps →
  Str.free_of ["<"; ">"]%char (render ps) = true.
Proof.
  unfold render.
  induction 1 as [|[text|name|name] ps Ht _ IH]; [done | | | done];
    rewrite fmap_cons; cbn [Str.concat render_token];
    rewrite !ScanFacts.free_of_app, IH; simpl in Ht;
    by rewrite (clean_angle _ Ht).
Qed.

Lemma expand_no_optional parts ts :
  Forall (λ t, well_written t = true) ts →
  (∀ name, Opt name ∈ ts →
     Forall (λ t, no_optional t && well_written t = true) (parts name)) →
  Forall (λ t, no_optional t && well_written t = true) (ts ≫= expand parts).
Proof.
  intros Hts Hparts. induction Hts as [|t ts Ht _ IH]; [constructor |].
  change ((t :: ts) ≫= expand parts) with (expand parts t ++ (ts ≫= expand parts)).
  apply Forall_app. split.
  - destruct t as [text|name|name]; cbn [expand].
    + by repeat constructor.
    + by repeat constructor.
    + apply Hparts. by left.
  - apply IH. intros name Hin. apply Hparts. by right.
Qed.

(** The line the pass over the optional placeholders leaves. *)
Lemma fill_optional_expand parts ts :
  (∀ name, Opt name ∈ ts →
     value device_vars name = render (parts name)
     ∧ Forall (λ t, no_optional t && well_written t = true) (parts name)) →
  Str.concat (fill device_vars <$> (optional_view <$> ts))
  = render_items "[" "]" (required_view device_vars <$> (ts ≫= expand parts)).
Proof.
  induction ts as [|t ts IH]; intros Hparts; [done |].
  change ((t :: ts) ≫= expand parts) with (expand parts t ++ (ts ≫= expand parts)).
  rewrite fmap_app, render_items_app, <- IH
    by (intros name Hin; apply Hparts; by right).
  rewrite !fmap_cons. cbn [Str.concat]. f_equal.
  destruct t as [text|name|name]; cbn [expand optional_view fill].
  - unfold render_items. simpl. by rewrite StrFacts.app_nil_r.
  - unfold render_items. simpl. by rewrite StrFacts.app_nil_r.
  - destruct (Hparts name ltac:(by left)) as [-> Hps]. by rewrite render_no_optional.
Qed.

End Tokens.

(** C3, on lines made of plain text and placeholders in which the text, the
    names and the values are free of the four characters the placeholders
    are written with: [replace_variables] puts in the place of every
    occurrence of a required or optional placeholder the value mapped to its
    name, the empty string when the name has no mapping; it succeeds exactly
    when every required name has a mapping, whatever the optional ones. *)
Theorem replace_variables_tokens content path device_name device_vars tss :
  Str.splitlines content = render <$> tss →
  Forall (Forall (λ t, clean_token device_vars t = true)) tss →
  (replace_variables content path device_name device_vars).1
  = (forallb (all_mapped device_vars) tss, Str.concat (substitute device_vars <$> tss)).
Proof.
  intros Hlines Hclean. unfold replace_variables, replace_file_inline. rewrite Hlines.
  pose proof (replace_variables_loop_tokens device_vars path device_name true tss Hclean) as H.
  destruct (replace_variables_loop _ _ _ _ _) as [[success written] logged].
  simpl in *. by simplify_eq.
Qed.

Lemma replace_variables_tokens_witness :
  (replace_variables "See [[GREETING]], <<NAME>> <<NAME>>!" "index.md" (Some "pi3")
     {[ "GREETING" := "hi" ]}).1
  = (true, "See hi,  !").
Proof.
  etrans.
  - apply (replace_variables_tokens "See [[GREETING]], <<NAME>> <<NAME>>!" "index.md"
             (Some "pi3") {[ "GREETING" := "hi" ]}
             [[Lit "See "; Req "GREETING"; Lit ", "; Opt "NAME"; Lit " "; Opt "NAME";
               Lit "!"]]).
    + reflexivity.
    + repeat constructor.
  - by vm_compute.
Defined.

(** Two lines on which the substitution departs from the reading of one
    placeholder at a time.  In the first, a required placeholder whose name
    has no mapping is replaced by the value of another name, with success:
    the optional placeholder inside the name is emptied first.  In the
    second, the value put in the place of a required placeholder holds a
    placeholder found in the line, and is emptied with it. *)
Lemma replace_variables_tokens_counterexample :
  (Re.findall Re.required_variable_re "[[A<<B>>]]" = ["A<<B>>"]
   ∧ ({[ "A" := "x" ]} : gmap string string) !! "A<<B>>" = None
   ∧ (replace_variables "[[A<<B>>]]" "index.md" (Some "pi3") {[ "A" := "x" ]}).1
     = (true, "x"))
  ∧ (({[ "A" := "[[B]]" ]} : gmap string string) !! "A" = Some "[[B]]"
     ∧ (replace_variables "[[A]] [[B]]" "index.md" (Some "pi3") {[ "A" := "[[B]]" ]}).1
       = (false, " ")).
Proof. by vm_compute. Qed.

(** C7, as the code has it: the line goes through two passes, and the pass
    over the required placeholders reads the line the pass over the
    optional ones has left.  On a line of plain text and placeholders
    written without the four characters, where the value of every optional
    placeholder of the line is made of such text and of required
    placeholders ([parts] gives them), and the value of every required
    placeholder, of the line or brought in by such a value, holds no square
    bracket: the required placeholders brought in by the values of the
    optional ones are substituted like those of the line, and the values put
    in by the pass over the required placeholders stay as they are, whatever
    they hold of the shape of an optional placeholder.  The call succeeds
    exactly when every required placeholder, brought in or not, has a
    mapping. *)
Theorem replace_line_content_two_passes device_vars filename device_name ts parts :
  Forall (λ t, well_written t = true) ts →
  (∀ name, Opt name ∈ ts →
     value device_vars name = render (parts name)
     ∧ Forall (λ t, no_optional t && well_written t = true) (parts name)) →
  (∀ name, Req name ∈ ts ≫= expand parts →
     Str.free_of ["["; "]"]%char (value device_vars name) = true) →
  (_replace_line_content (render ts) filename device_name device_vars).1
  = (substitute device_vars (ts ≫= expand parts),
     all_mapped device_vars (ts ≫= expand parts)).
Proof.
  intros Hts Hparts Hvalues. unfold _replace_line_content.
  pose proof (expand_no_optional parts ts Hts (λ name Hin, proj2 (Hparts name Hin)))
    as Hexp.
  rewrite <- render_optional_view.
  change ("<<", ">>") with (delim "<", delim ">").
  change Re.optional_variable_re with (Re.variable_re "<" ">").
  rewrite replace_from_map_items; [| done | |].
  - rewrite (fill_optional_expand device_vars parts) by done.
    change ("[[", "]]") with (delim "[", delim "]").
    change Re.required_variable_re with (Re.variable_re "[" "]").
    rewrite replace_from_map_items; [| done | |].
    + cbn [fst]. rewrite fill_required_view, names_required_view.
      unfold all_mapped. by rewrite filter_unmapped.
    + rewrite Forall_fmap. eapply Forall_impl; [exact Hexp |].
      intros [text|name|name]; simpl; [apply clean_square.. | done].
    + intros name. rewrite names_required_view. intros Hin%names_required_token.
      split; [| by apply Hvalues].
      rewrite Forall_forall in Hexp. apply clean_square, (Hexp _ Hin).
  - rewrite Forall_fmap. eapply Forall_impl; [exact Hts |].
    intros [text|name|name]; simpl.
    + apply clean_angle.
    + intros Hname. rewrite !ScanFacts.free_of_app, (clean_angle _ Hname). done.
    + apply clean_angle.
  - intros name Hin%names_optional_view.
    destruct (Hparts name Hin) as [-> Hps].
    rewrite Forall_forall in Hts. split.
    + apply clean_angle, (Hts _ Hin).
    + by apply free_angle_no_optional.
Qed.

Lemma replace_line_content_two_passes_witness :
  (_replace_line_content "<<NAME>> [[Y]]" "index.md" (Some "pi3")
     {[ "NAME" := "[[X]]"; "X" := "boom"; "Y" := "<<NAME>>" ]}).1
  = ("boom <<NAME>>", true).
Proof.
  etrans.
  - apply (replace_line_content_two_passes
             {[ "NAME" := "[[X]]"; "X" := "boom"; "Y" := "<<NAME>>" ]}
             "index.md" (Some "pi3") [Opt "NAME"; Lit " "; Req "Y"] (λ _, [Req "X"])).
    + by repeat constructor.
    + intros name Hin. rewrite !elem_of_cons, elem_of_nil in Hin.
      destruct Hin as [[= ->]|[|[|]]]; try done.
      split; [by vm_compute | by repeat constructor].
    + intros name Hin.
      change ([Opt "NAME"; Lit " "; Req "Y"] ≫= expand (λ _, [Req "X"]))
        with [Req "X"; Lit " "; Req "Y"] in Hin.
      rewrite !elem_of_cons, elem_of_nil in Hin.
      destruct Hin as [[= ->]|[|[[= ->]|]]]; try done.
  - by vm_compute.
Defined.

(** The required placeholder in the value of an optional placeholder is
    substituted by the second pass. *)
Lemma replace_line_content_two_passes_counterexample :
  ({[ "NAME" := "[[X]]"; "X" := "boom" ]} : gmap string string) !! "NAME" = Some "[[X]]"
  ∧ (_replace_line_content "<<NAME>>" "index.md" (Some "pi3")
       {[ "NAME" := "[[X]]"; "X" := "boom" ]}).1 = ("boom", true)
  ∧ (_replace_line_content "<<NAME>>" "index.md" (Some "pi3")
       {[ "NAME" := "[[X]]"; "X" := "boom" ]}).1.1 ≠ "[[X]]".
Proof. by vm_compute. Qed.

(** Within one pass a value is read again when it holds a placeholder of a
    name found in the line whose turn comes later: the order of the
    placeholders in the line decides. *)
Example replace_line_content_same_pass :
  (_replace_line_content "[[A]] [[B]]" "index.md" (Some "pi3")
     {[ "A" := "[[B]]"; "B" := "z" ]}).1 = ("z z", true)
  ∧ (_replace_line_content "[[B]] [[A]]" "index.md" (Some "pi3")
       {[ "A" := "[[B]]"; "B" := "z" ]}).1 = ("z [[B]]", true).
Proof. by vm_compute. Qed.

(** ** Link normalizer *)

Module ReplaceFacts.

Lemma split_from_nonempty sep skip s : Str.split_from sep skip s ≠ [].
Proof.
  revert skip; induction s as [|a s IH]; intros skip; simpl; [done |].
  destruct skip; [| apply IH].
  destruct (Str.startswith sep (String a s)); [done |].
  by destruct (Str.split_from sep 0 s).
Qed.

Lemma join_cons sep p ps :
  ps ≠ [] → Str.join sep (p :: ps) = p +:+ sep +:+ Str.join sep ps.
Proof. by destruct ps. Qed.

Lemma join_cons_char sep a p ps :
  Str.join sep (String a p :: ps) = String a (Str.join sep (p :: ps)).
Proof. by destruct ps. Qed.

(** Replacing is splitting at the occurrences and joining with the new
    text. *)
Lemma replace_from_split old new skip s :
  Str.replace_from old new skip s = Str.join new (Str.split_from old skip s).
Proof.
  revert skip; induction s as [|a s IH]; intros skip; [done |].
  cbn [Str.replace_from Str.split_from]. destruct skip; [| apply IH].
  destruct (Str.startswith old (String a s)).
  - rewrite join_cons by apply split_from_nonempty. by rewrite IH.
  - rewrite IH. pose proof (split_from_nonempty old 0 s).
    destruct (Str.split_from old 0 s) as [|p ps]; [done |].
    by rewrite join_cons_char.
Qed.

Lemma drop_empty k : Str.drop k "" = "".
Proof. by destruct k. Qed.

(** Joining the pieces with the separator gives the text back. *)
Lemma join_split_from a old skip s :
  Str.join (String a old) (Str.split_from (String a old) skip s) = Str.drop skip s.
Proof.
  revert skip; induction s as [|b s IH]; intros skip; [by destruct skip |].
  cbn [Str.split_from]. destruct skip as [|skip]; [| apply IH].
  destruct (Str.startswith (String a old) (String b s)) eqn:E.
  - rewrite join_cons by apply split_from_nonempty. rewrite IH.
    apply StrFacts.startswith_inv in E as [r E]. simpl in E. simplify_eq.
    replace (String.length (String a old) - 1) with (String.length old) by (simpl; lia).
    by rewrite StrFacts.drop_app.
  - pose proof (split_from_nonempty (String a old) 0 s).
    specialize (IH 0). destruct (Str.split_from (String a old) 0 s) as [|p ps]; [done |].
    rewrite join_cons_char, IH. done.
Qed.

Lemma length_join sep p ps :
  String.length (Str.join sep (p :: ps))
  = String.length p + length ps * String.length sep
    + String.length (Str.concat ps).
Proof.
  revert p; induction ps as [|q ps IH]; intros p.
  - simpl. lia.
  - rewrite join_cons by done. rewrite !StrFacts.length_app, IH. simpl.
    rewrite StrFacts.length_app. lia.
Qed.

(** An occurrence of the separator gives at least two pieces. *)
Lemma split_occurs b sep x y :
  2 ≤ length (Str.split_from (String b sep) 0 (x +:+ String b sep +:+ y)).
Proof.
  assert (∀ skip s, 2 ≤ length ("" :: Str.split_from (String b sep) skip s)) as Hcons.
  { intros skip s. pose proof (split_from_nonempty (String b sep) skip s).
    destruct (Str.split_from _ _ _); [done | simpl; lia]. }
  induction x as [|a x IH].
  - change ("" +:+ String b sep +:+ y) with (String b (sep +:+ y)). cbn [Str.split_from].
    change (String b (sep +:+ y)) with (String b sep +:+ y).
    rewrite StrFacts.startswith_app. apply Hcons.
  - change (String a x +:+ String b sep +:+ y) with (String a (x +:+ String b sep +:+ y)).
    cbn [Str.split_from].
    destruct (Str.startswith (String b sep) _); [apply Hcons |].
    destruct (Str.split_from (String b sep) 0 (x +:+ String b sep +:+ y));
      simpl in *; lia.
Qed.

End ReplaceFacts.

Module LinkFacts.

Lemma length_take n s : String.length (Str.take n s) = n `min` String.length s.
Proof.
  revert s; induction n as [|n IH]; intros [|a s]; simpl; try done.
  by rewrite IH.
Qed.

Lemma length_drop n s : String.length (Str.drop n s) = String.length s - n.
Proof. revert s; induction n as [|n IH]; intros [|a s]; simpl; try done. Qed.

Lemma length_strip3 g : 4 ≤ String.length g → String.length (Str.strip3 g) + 3 = String.length g.
Proof. intros H. unfold Str.strip3. rewrite length_take. lia. Qed.

(** The length of a text after a replacement. *)
Lemma length_replace a old new s :
  String.length (Str.replace (String a old) new s)
    + (length (Str.split (String a old) s) - 1) * String.length (String a old)
  = String.length s + (length (Str.split (String a old) s) - 1) * String.length new.
Proof.
  unfold Str.replace, Str.split. rewrite ReplaceFacts.replace_from_split.
  pose proof (ReplaceFacts.join_split_from a old 0 s) as Hs.
  pose proof (ReplaceFacts.split_from_nonempty (String a old) 0 s).
  destruct (Str.split_from (String a old) 0 s) as [|p ps]; [done |].
  change (Str.drop 0 s) with s in Hs.
  rewrite <- Hs. rewrite !ReplaceFacts.length_join.
  cbn [length]. lia.
Qed.

Lemma length_replace_le old new s :
  String.length new ≤ String.length old →
  String.length (Str.replace old new s) ≤ String.length s.
Proof.
  destruct old as [|a old].
  - simpl. destruct new; [| simpl; lia]. intros _.
    induction s as [|b s IH]; simpl; [done | lia].
  - intros Hle. pose proof (length_replace a old new s). nia.
Qed.

Lemma length_replace_lt old new x y :
  String.length new < String.length old →
  String.length (Str.replace old new (x +:+ old +:+ y)) < String.length (x +:+ old +:+ y).
Proof.
  destruct old as [|a old]; [simpl; lia |]. intros Hlt.
  pose proof (length_replace a old new (x +:+ String a old +:+ y)).
  pose proof (ReplaceFacts.split_occurs a old x y). unfold Str.split in *. nia.
Qed.

Lemma take_drop n s : Str.take n s +:+ Str.drop n s = s.
Proof.
  revert s; induction n as [|n IH]; intros [|a s]; simpl; try done. by rewrite IH.
Qed.

(** What the pattern of the links matches: a target of at least four
    characters that ends with the suffix, behind an opening parenthesis. *)
Lemma links_match s g len :
  Re.relative_markdown_links s = Some (g, len) →
  4 ≤ String.length g ∧ g = Str.strip3 g +:+ ".md"
  ∧ ∃ rest, s = String "(" (g +:+ rest).
Proof.
  unfold Re.relative_markdown_links.
  destruct s as [|a [|c rest]]; [done.. |].
  destruct (bool_decide (a = "("%char)) eqn:Ea; [| done]. cbn [negb].
  apply bool_decide_eq_true in Ea as ->.
  destruct (_ || _); [done |].
  destruct (bool_decide (c = Str.newline)); [done |].
  destruct (Str.span _ rest) as [run rest'] eqn:Espan.
  destruct (Str.startswith ")" rest' && _) eqn:E; [| done].
  apply andb_true_iff in E as [_ Hmd%bool_decide_eq_true].
  intros ?; simplify_eq.
  assert (3 ≤ String.length run).
  { apply (f_equal String.length) in Hmd. rewrite length_drop in Hmd. simpl in Hmd. lia. }
  split; [simpl; lia |]. split.
  - unfold Str.strip3. rewrite <- (take_drop (String.length (String c run) - 3)) at 1.
    f_equal. cbn [String.length].
    replace (S (String.length run) - 3) with (S (String.length run - 3)) by lia.
    done.
  - exists rest'. simpl. by rewrite (ScanFacts.span_app _ _ _ _ Espan).
Qed.

(** Every target found occurs in the line. *)
Lemma findall_occurs g skip s :
  g ∈ Re.findall_from Re.relative_markdown_links skip s →
  (4 ≤ String.length g ∧ g = Str.strip3 g +:+ ".md") ∧ ∃ x y, s = x +:+ g +:+ y.
Proof.
  revert skip; induction s as [|a s IH]; intros skip; [by intros ?%elem_of_nil |].
  cbn [Re.findall_from].
  assert (∀ k, g ∈ Re.findall_from Re.relative_markdown_links k s →
               (4 ≤ String.length g ∧ g = Str.strip3 g +:+ ".md")
               ∧ ∃ x y, String a s = x +:+ g +:+ y) as Hrest.
  { intros k (Hlen & x & y & ->)%IH. split; [done |]. by exists (String a x), y. }
  destruct skip; [| apply Hrest].
  destruct (Re.relative_markdown_links (String a s)) as [[g' len]|] eqn:E; [| apply Hrest].
  intros [->|Hin]%elem_of_cons; [| by eapply Hrest].
  apply links_match in E as (Hlen & Hmd & rest & E). split; [done |].
  exists "(", rest. by rewrite E.
Qed.

(** *** One line *)

Lemma fold_replace_le gs line :
  (∀ g, g ∈ gs → 4 ≤ String.length g) →
  String.length (fold_left (λ line g, Str.replace g (Str.strip3 g) line) gs line)
  ≤ String.length line.
Proof.
  revert line; induction gs as [|g gs IH]; intros line Hgs; [done |]. simpl.
  etrans; [apply IH; intros; apply Hgs; by right |].
  apply length_replace_le. pose proof (length_strip3 g (Hgs g ltac:(by left))). lia.
Qed.

Lemma reformat_line_fixed line :
  Re.findall Re.relative_markdown_links line = [] → reformat_line line = line.
Proof. unfold reformat_line. by intros ->. Qed.

Lemma reformat_line_shorter line :
  Re.findall Re.relative_markdown_links line ≠ [] →
  String.length (reformat_line line) < String.length line.
Proof.
  unfold reformat_line. intros Hne.
  assert (∀ g, g ∈ Re.findall Re.relative_markdown_links line →
               4 ≤ String.length g ∧ ∃ x y, line = x +:+ g +:+ y) as Hall.
  { intros g [[? _] ?]%findall_occurs. done. }
  destruct (Re.findall Re.relative_markdown_links line) as [|g gs]; [done |]. simpl.
  destruct (Hall g ltac:(by left)) as (Hlen & x & y & Hline).
  eapply Nat.le_lt_trans; [apply fold_replace_le; intros; apply Hall; by right |].
  rewrite Hline. apply length_replace_lt.
  pose proof (length_strip3 g Hlen). lia.
Qed.

Lemma reformat_line_le line : String.length (reformat_line line) ≤ String.length line.
Proof.
  destruct (decide (Re.findall Re.relative_markdown_links line = [])) as [H|H].
  - by rewrite reformat_line_fixed.
  - apply Nat.lt_le_incl. by apply reformat_line_shorter.
Qed.

(** *** A document *)

Lemma length_concat_reformat (lines : list string) :
  String.length (Str.concat (reformat_line <$> lines)) ≤ String.length (Str.concat lines)
  ∧ (Exists (λ line, Re.findall Re.relative_markdown_links line ≠ []) lines →
     String.length (Str.concat (reformat_line <$> lines)) < String.length (Str.concat lines)).
Proof.
  induction lines as [|line lines [IHle IHlt]].
  - split; [done |]. by intros ?%Exists_nil.
  - rewrite fmap_cons. cbn [Str.concat]. rewrite !StrFacts.length_app. pose proof (reformat_line_le line) as Hle.
    split; [lia |]. intros [Hex|Hex]%Exists_cons.
    + apply reformat_line_shorter in Hex. lia.
    + specialize (IHlt Hex). lia.
Qed.

(** The documents [reformat_links] leaves as they are: those without a
    relative link to a markdown file. *)
Lemma reformat_links_fixed content :
  reformat_links content = content ↔
  Forall (λ line, Re.findall Re.relative_markdown_links line = []) (Str.splitlines content).
Proof.
  unfold reformat_links, replace_file_inline. cbn [snd]. split.
  - intros Heq.
    destruct (decide (Forall (λ line, Re.findall Re.relative_markdown_links line = [])
                        (Str.splitlines content))) as [|Hex]; [done |].
    apply not_Forall_Exists in Hex; [| intros ?; apply _].
    apply (proj2 (length_concat_reformat _)) in Hex.
    rewrite Heq, StrFacts.concat_splitlines in Hex. lia.
  - intros Hall. rewrite <- (StrFacts.concat_splitlines content) at 2. f_equal.
    induction Hall as [|line lines Hline _ IH]; [done |].
    by rewrite fmap_cons, reformat_line_fixed, IH.
Qed.

End LinkFacts.

(** C6, as the code has it: applying [reformat_links] a second time changes
    nothing exactly when the document normalized once holds no relative
    link to a markdown file any more; and a second application that changes
    something makes the document shorter again. *)
Theorem reformat_links_twice content :
  (reformat_links (reformat_links content) = reformat_links content ↔
   Forall (λ line, Re.findall Re.relative_markdown_links line = [])
          (Str.splitlines (reformat_links content)))
  ∧ (reformat_links (reformat_links content) = reformat_links content
     ∨ String.length (reformat_links (reformat_links content))
       < String.length (reformat_links content)).
Proof.
  split; [apply LinkFacts.reformat_links_fixed |].
  destruct (decide (Forall (λ line, Re.findall Re.relative_markdown_links line = [])
                      (Str.splitlines (reformat_links content)))) as [Hall|Hex].
  - left. by apply LinkFacts.reformat_links_fixed.
  - right. apply not_Forall_Exists in Hex; [| intros ?; apply _].
    apply (proj2 (LinkFacts.length_concat_reformat _)) in Hex.
    by rewrite StrFacts.concat_splitlines in Hex.
Qed.

(** A target that ends with the suffix twice loses it once per application. *)
Lemma reformat_links_twice_counterexample :
  reformat_links "[guide](install.md.md)" = "[guide](install.md)"
  ∧ reformat_links (reformat_links "[guide](install.md.md)") = "[guide](install)"
  ∧ reformat_links (reformat_links "[guide](install.md.md)")
    ≠ reformat_links "[guide](install.md.md)".
Proof. by vm_compute. Qed.

Example reformat_links_guide :
  reformat_links ("[guide](install.md)" +:+ Str.nl) = "[guide](install)" +:+ Str.nl.
Proof. reflexivity. Qed.



Example reformat_line_see :
  reformat_line "see a.md: [t](a.md)" = "see a: [t](a)".
Proof. reflexivity. Qed.

(** * Further properties of the code *)

(** ** Importing copier: what the call reports *)

Section CopyReports.

Variable realpath : string → string.
Variable fs : gmap string entry.

Lemma has_error_app records extra : has_error records → has_error (records ++ extra).
Proof. intros [message H]. exists message. apply elem_of_app. by left. Qed.

Lemma copy_lines_reports recur name lines success st st' r :
  reports recur →
  copy_lines realpath fs recur name lines success st = Some (st', r) →
  (∃ extra, logged st' = logged st ++ extra)
  ∧ (r = inr false → success = false ∨ has_error (logged st')).
Proof.
  intros Hrec. revert success st.
  induction lines as [|line rest IH]; intros success st H; simpl in H.
  - simplify_eq. split; [exists []; by rewrite app_nil_r |]. intros ?; simplify_eq. by left.
  - assert (∀ st0 message,
              (∃ extra, logged st0 = logged st ++ extra) →
              copy_lines realpath fs recur name rest false (log ERROR message st0)
              = Some (st', r) →
              (∃ extra, logged st' = logged st ++ extra)
              ∧ (r = inr false → success = false ∨ has_error (logged st'))) as Hfailed.
    { intros st0 message [extra0 E0] H0.
      destruct (IH _ _ H0) as [[extra E] _]. simpl in E. split.
      - exists (extra0 ++ [(ERROR, message)] ++ extra). rewrite E, E0. by rewrite <- !app_assoc.
      - intros _. right. rewrite E. apply has_error_app.
        exists message. apply elem_of_app. right. by left. }
    destruct (Re.findall Re.import_re line) as [|rel_path more].
    { destruct (IH _ _ H) as [[extra E] Hr]. simpl in E. split; [by exists extra |]. done. }
    destruct (open_r fs _) as [[]|import_f].
    + eapply Hfailed; [| exact H]. exists []. by rewrite app_nil_r.
    + simplify_eq. split; [exists []; by rewrite app_nil_r | done].
    + simplify_eq. split; [exists []; by rewrite app_nil_r | done].
    + destruct (recur _ _ _) as [[st1 res]|] eqn:Erec; [| done].
      destruct (Hrec _ _ _ _ _ Erec) as [[extra1 E1] Hfalse1].
      destruct res as [[]|imported].
      * eapply Hfailed; [| exact H]. by exists extra1.
      * simplify_eq. split; [by exists extra1 | done].
      * simplify_eq. split; [by exists extra1 | done].
      * destruct (IH _ _ H) as [[extra E] Hr]. split.
        -- exists (extra1 ++ extra). by rewrite E, E1, <- app_assoc.
        -- intros Hfalse. destruct (Hr Hfalse) as [Hs|Herr]; [| by right].
           apply andb_false_iff in Hs as [-> | ->]; [by left |].
           right. destruct (Hfalse1 eq_refl) as [message Hin].
           exists message. rewrite E. apply elem_of_app. by left.
Qed.

Lemma copy_reports fuel : reports (_copycontent_withimports_tag realpath fs fuel).
Proof.
  induction fuel as [|fuel IH]; intros path f st st' r H; [done |]. simpl in H.
  destruct (copy_lines _ _ _ _ _ _ _) as [[st1 res]|] eqn:E; [| done].
  destruct (copy_lines_reports _ _ _ _ _ _ _ IH E) as [Hext Hfalse].
  destruct res as [e|success].
  - simplify_eq. split; [done | done].
  - destruct (end_of f); simplify_eq; (split; [done |]); [done |].
    intros Hr. destruct (Hfalse Hr) as [?|?]; done.
Qed.

End CopyReports.

(** X2: The call returns false only after it logged an error. *)
Theorem import_and_copy_file_false_logged realpath fuel fs source_path destination_path o :
  import_and_copy_file realpath fuel fs source_path destination_path = Some o →
  result o = inr false →
  has_error (records o).
Proof.
  unfold import_and_copy_file. intros H Hfalse.
  assert (∀ records, has_error (records ++ [(ERROR, "Couldn't open " +:+ source_path)]))
    as Hlast.
  { intros records. exists ("Couldn't open " +:+ source_path).
    apply elem_of_app. right. by left. }
  destruct (open_w fs destination_path) as [[]|fs1]; simplify_eq; try done.
  { apply (Hlast []). }
  destruct (open_r fs1 source_path) as [[]|source_f]; simplify_eq; try done.
  { apply (Hlast []). }
  destruct (_copycontent_withimports_tag _ _ _ _ _ _) as [[st r]|] eqn:E; [| done].
  destruct (copy_reports _ _ _ _ _ _ _ _ E) as [_ Herr].
  destruct r as [[| |e]|success].
  - simplify_eq. cbn [records]. apply Hlast.
  - by simplify_eq.
  - destruct (copy2 _ _ _); by simplify_eq.
  - simplify_eq. cbn [result records] in *. apply Herr. congruence.
Qed.

Lemma import_and_copy_file_false_logged_witness :
  ∃ o, import_and_copy_file id 2 partial_fs "/d/a.md" "/out/a.md" = Some o
       ∧ result o = inr false
       ∧ has_error (records o).
Proof.
  destruct (import_and_copy_file id 2 partial_fs "/d/a.md" "/out/a.md") as [o|] eqn:E.
  - assert (result o = inr false) as Hr by (by vm_compute in E; simplify_eq).
    exists o. split; [done |]. split; [done |].
    exact (import_and_copy_file_false_logged id 2 partial_fs "/d/a.md" "/out/a.md" o E Hr).
  - by vm_compute in E.
Defined.

(** X4: Called with one path for the source and the destination, the call
    empties the file, or creates it empty, and returns true: the file is
    opened for writing before it is read. *)
Theorem import_and_copy_file_same_path realpath fuel fs path :
  0 < fuel →
  creatable fs path →
  import_and_copy_file realpath fuel fs path path
  = Some (Outcome (inr true) (<[path := Regular (Text "")]> fs) []).
Proof.
  intros Hfuel Hpath. destruct fuel as [|fuel]; [lia |].
  unfold import_and_copy_file. rewrite open_w_creatable by done.
  unfold open_r. rewrite lookup_insert_eq. simpl. by rewrite insert_insert_eq.
Qed.

Lemma import_and_copy_file_same_path_witness :
  import_and_copy_file id 1 chain_fs "/d/a.md" "/d/a.md"
  = Some (Outcome (inr true) (<["/d/a.md" := Regular (Text "")]> chain_fs) []).
Proof.
  apply import_and_copy_file_same_path; [lia |]. right. eexists. by vm_compute.
Defined.



(** ** Importing copier: imports that do not end, imports that raise *)

(** No depth is enough for a file with a directive that refers to the file
    itself. *)
Lemma copy_self_import realpath fs name content before line rest rel_path more :
  open_r fs name = inr (Text content) →
  lines_of (Text content) = before ++ line :: rest →
  (∀ l, l ∈ before → Re.findall Re.import_re l = []) →
  Re.findall Re.import_re line = rel_path :: more →
  target realpath name rel_path = name →
  ∀ fuel st, _copycontent_withimports_tag realpath fs fuel name (Text content) st = None.
Proof.
  intros Hopen Hlines Hbefore Hline Hself fuel.
  induction fuel as [|fuel IH]; intros st; [done |].
  cbn [_copycontent_withimports_tag]. rewrite Hlines.
  rewrite (copy_lines_app _ _ _ _ _ _ _ _ _ _
             (copy_lines_plain realpath fs _ name before true st Hbefore)).
  cbn [copy_lines]. rewrite Hline. fold (target realpath name rel_path).
  by rewrite Hself, Hopen, IH.
Qed.

(** X6: There is no guard against cycles: on a source with a directive that
    refers to the source itself, after lines without directive, the
    recursion is deeper than any bound. *)
Theorem import_and_copy_file_self_import realpath fs source_path destination_path content
    before line rest rel_path more :
  creatable fs destination_path →
  source_path ≠ destination_path →
  fs !! source_path = Some (Regular (Text content)) →
  lines_of (Text content) = before ++ line :: rest →
  (∀ l, l ∈ before → Re.findall Re.import_re l = []) →
  Re.findall Re.import_re line = rel_path :: more →
  target realpath source_path rel_path = source_path →
  ∀ fuel, import_and_copy_file realpath fuel fs source_path destination_path = None.
Proof.
  intros Hdst Hne Hsrc Hlines Hbefore Hline Hself fuel. unfold import_and_copy_file.
  rewrite open_w_creatable, open_r_insert_ne, (open_r_regular _ _ _ Hsrc) by done.
  rewrite (copy_self_import realpath _ source_path content before line rest rel_path more);
    [done | | done..].
  rewrite open_r_insert_ne by done. by apply open_r_regular.
Qed.

Lemma import_and_copy_file_self_import_witness :
  import_and_copy_file id 1000 loop_fs "/d/loop.md" "/out/loop.md" = None.
Proof.
  apply (import_and_copy_file_self_import id loop_fs "/d/loop.md" "/out/loop.md"
           ("intro" +:+ Str.nl +:+ "##IMPORT loop.md" +:+ Str.nl)
           ["intro" +:+ Str.nl] ("##IMPORT loop.md" +:+ Str.nl) [] "loop.md" []).
  - left. by vm_compute.
  - by vm_compute.
  - by vm_compute.
  - by vm_compute.
  - intros l Hl. elem_cases Hl.
  - by vm_compute.
  - by vm_compute.
Defined.

(** X7: A directive that refers to a path the system refuses to open, for
    another reason than its absence, ends the call with the error.  After
    lines without directive the destination holds these lines and nothing
    else: the lines behind the directive are neither read nor written; and
    nothing is logged. *)
Theorem import_and_copy_file_import_raises realpath fuel fs source_path destination_path
    content before line rest rel_path more :
  0 < fuel →
  creatable fs destination_path →
  source_path ≠ destination_path →
  fs !! source_path = Some (Regular (Text content)) →
  lines_of (Text content) = before ++ line :: rest →
  (∀ l, l ∈ before → Re.findall Re.import_re l = []) →
  Re.findall Re.import_re line = rel_path :: more →
  fs !! target realpath source_path rel_path = Some Unopenable →
  import_and_copy_file realpath fuel fs source_path destination_path
  = Some (Outcome (inl OSError)
            (<[destination_path := Regular (Text (Str.concat before))]> fs) []).
Proof.
  intros Hfuel Hdst Hne Hsrc Hlines Hbefore Hline Hopen.
  destruct fuel as [|fuel]; [lia |].
  assert (target realpath source_path rel_path ≠ destination_path) as Hne'.
  { intros E. rewrite E in Hopen. destruct Hdst as [H|[f H]]; congruence. }
  unfold import_and_copy_file.
  rewrite open_w_creatable, open_r_insert_ne, (open_r_regular _ _ _ Hsrc) by done.
  cbn [_copycontent_withimports_tag]. rewrite Hlines.
  rewrite (copy_lines_app _ _ _ _ _ _ _ _ _ _
             (copy_lines_plain realpath _ _ source_path before true (Io "" []) Hbefore)).
  cbn [copy_lines]. rewrite Hline. fold (target realpath source_path rel_path).
  rewrite open_r_insert_ne by done. unfold open_r. rewrite Hopen.
  cbn. by rewrite insert_insert_eq.
Qed.

Lemma import_and_copy_file_import_raises_witness :
  import_and_copy_file id 1 locked_fs "/d/a.md" "/out/a.md"
  = Some (Outcome (inl OSError)
            (<["/out/a.md" := Regular (Text (Str.concat ["a1" +:+ Str.nl]))]> locked_fs) []).
Proof.
  apply (import_and_copy_file_import_raises id 1 locked_fs "/d/a.md" "/out/a.md" locked_a
           ["a1" +:+ Str.nl] ("##IMPORT " +:+ Str.nl) ["a2" +:+ Str.nl] "" []).
  - lia.
  - left. by vm_compute.
  - by vm_compute.
  - by vm_compute.
  - by vm_compute.
  - intros l Hl. elem_cases Hl.
  - by vm_compute.
  - by vm_compute.
Defined.

(** ** Importing copier: what counts as a directive *)

Lemma import_re_none s :
  Re.import_re s = None ↔ Str.startswith "##IMPORT " s = false.
Proof.
  unfold Re.import_re. destruct (Str.startswith "##IMPORT " s); [| done].
  destruct (Str.span _ _). split; done.
Qed.

Lemma findall_from_import_nil skip s :
  Re.findall_from Re.import_re 0 s = [] → Re.findall_from Re.import_re skip s = [].
Proof.
  revert skip; induction s as [|a s IH]; intros skip; [done |].
  cbn [Re.findall_from]. destruct skip as [|skip]; [done |].
  destruct (Re.import_re (String a s)) as [[g len]|]; [done |]. apply IH.
Qed.

(** X9: A line is taken for a directive exactly when the marker occurs in it,
    at its start or anywhere behind. *)
Theorem import_re_marker line :
  Re.findall Re.import_re line ≠ [] ↔ ∃ x y, line = x +:+ "##IMPORT " +:+ y.
Proof.
  unfold Re.findall. split.
  - induction line as [|a line IH]; [done |]. cbn [Re.findall_from].
    destruct (Re.import_re (String a line)) as [[g len]|] eqn:E.
    + intros _. unfold Re.import_re in E.
      destruct (Str.startswith "##IMPORT " (String a line)) eqn:Es; [| done].
      apply StrFacts.startswith_inv in Es as [y Es]. exists "", y. by rewrite Es.
    + intros (x & y & ->)%IH. by exists (String a x), y.
  - intros (x & y & ->). induction x as [|a x IH].
    + change ("" +:+ "##IMPORT " +:+ y) with (String "#" ("#IMPORT " +:+ y)).
      cbn [Re.findall_from]. unfold Re.import_re at 1.
      change (String "#" ("#IMPORT " +:+ y)) with ("##IMPORT " +:+ y).
      rewrite StrFacts.startswith_app. by destruct (Str.span _ _).
    + change (String a x +:+ "##IMPORT " +:+ y) with (String a (x +:+ "##IMPORT " +:+ y)).
      cbn [Re.findall_from]. by destruct (Re.import_re _) as [[g len]|].
Qed.

Lemma span_line path tail :
  Str.free_of [Str.newline] path = true →
  tail = "" ∨ tail = Str.nl →
  Str.span (λ c, bool_decide (c ≠ Str.newline)) (path +:+ tail) = (path, tail).
Proof.
  intros Hpath Htail. induction path as [|a path IH].
  - by destruct Htail as [-> | ->].
  - cbn [Str.free_of] in Hpath. apply andb_true_iff in Hpath as [Ha Hpath].
    apply bool_decide_eq_true in Ha. simpl.
    rewrite bool_decide_eq_true_2, IH; [done.. |]. intros ->. apply Ha. by left.
Qed.

(** X10: The path of a directive is what follows the first marker, up to the end
    of the line; what stands before the marker plays no part, and a second
    marker belongs to the path. *)
Theorem import_re_path before path tail :
  Str.free_of ["#"%char] before = true →
  Str.free_of [Str.newline] path = true →
  tail = "" ∨ tail = Str.nl →
  Re.findall Re.import_re (before +:+ "##IMPORT " +:+ path +:+ tail) = [path].
Proof.
  intros Hbefore Hpath Htail. unfold Re.findall.
  induction before as [|a before IH].
  - change ("" +:+ "##IMPORT " +:+ path +:+ tail)
      with (String "#" ("#IMPORT " +:+ path +:+ tail)).
    cbn [Re.findall_from]. unfold Re.import_re at 1.
    change (String "#" ("#IMPORT " +:+ path +:+ tail)) with ("##IMPORT " +:+ path +:+ tail).
    rewrite StrFacts.startswith_app.
    change 9 with (String.length "##IMPORT ") at 1. rewrite StrFacts.drop_app.
    rewrite span_line by done. f_equal.
    replace (9 + String.length path - 1) with (String.length ("#IMPORT " +:+ path))
      by (rewrite StrFacts.length_app; simpl; lia).
    rewrite <- StrFacts.app_assoc, ScanFacts.findall_skip.
    by destruct Htail as [-> | ->].
  - cbn [Str.free_of] in Hbefore. apply andb_true_iff in Hbefore as [Ha Hbefore].
    apply bool_decide_eq_true in Ha.
    change (String a before +:+ "##IMPORT " +:+ path +:+ tail)
      with (String a (before +:+ "##IMPORT " +:+ path +:+ tail)).
    cbn [Re.findall_from].
    assert (Re.import_re (String a (before +:+ "##IMPORT " +:+ path +:+ tail)) = None) as ->.
    { apply import_re_none. simpl. rewrite decide_False; [done |].
      intros <-. apply Ha. by left. }
    by apply IH.
Qed.

Lemma import_re_path_witness :
  Re.findall Re.import_re
    ("see " +:+ "##IMPORT " +:+ "parts/intro.md ##IMPORT other.md" +:+ Str.nl)
  = ["parts/intro.md ##IMPORT other.md"].
Proof.
  apply (import_re_path "see " "parts/intro.md ##IMPORT other.md" Str.nl).
  - reflexivity.
  - reflexivity.
  - by right.
Defined.

(** ** Importing copier: where a directive points *)

Module PathFacts.

Lemma has_sep_app a b : Path.has_sep (a +:+ b) = Path.has_sep a || Path.has_sep b.
Proof. induction a as [|c a IH]; simpl; [done | by rewrite IH, orb_assoc]. Qed.

(** Up to the last separator: the directory and the separator. *)
Lemma head_file d f :
  Path.has_sep f = false → Path.head (d +:+ "/" +:+ f) = d +:+ "/".
Proof.
  intros Hf. induction d as [|c d IH].
  - simpl. destruct f as [|x f]; [done |]. simpl in *.
    apply orb_false_iff in Hf as [Hx Hf]. by rewrite Hx, Hf.
  - change (String c d +:+ "/" +:+ f) with (String c (d +:+ "/" +:+ f)).
    cbn [Path.head].
    assert (Path.has_sep (String c (d +:+ "/" +:+ f)) = true) as ->.
    { cbn [Path.has_sep]. rewrite has_sep_app. simpl. by rewrite !orb_true_r. }
    by rewrite IH.
Qed.

Lemma rstrip_dir d :
  d ≠ "" → Path.endswith_sep d = false → Path.rstrip (d +:+ "/") = d.
Proof.
  induction d as [|c d IH]; [done |]. intros _ Hend.
  change (String c d +:+ "/") with (String c (d +:+ "/")). cbn [Path.rstrip].
  destruct d as [|c' d].
  - simpl in *. by rewrite Hend.
  - rewrite IH; [done | done |]. by destruct d.
Qed.

Lemma all_sep_dir d :
  d ≠ "" → Path.endswith_sep d = false → Path.all_sep (d +:+ "/") = false.
Proof.
  induction d as [|c d IH]; [done |]. intros _ Hend.
  change (String c d +:+ "/") with (String c (d +:+ "/")). cbn [Path.all_sep].
  destruct d as [|c' d].
  - simpl in *. by rewrite Hend.
  - rewrite IH; [by rewrite andb_false_r | done |]. by destruct d.
Qed.

End PathFacts.

(** X11: A relative path in a directive is taken from the directory that holds
    the file with the directive, as its real path gives it; an absolute one
    is taken as it is. *)
Theorem target_resolution realpath name d f rel_path :
  realpath name = d +:+ "/" +:+ f →
  d ≠ "" →
  Path.endswith_sep d = false →
  Path.has_sep f = false →
  target realpath name rel_path
  = if Str.startswith "/" rel_path then rel_path else d +:+ "/" +:+ rel_path.
Proof.
  intros Hreal Hd Hend Hf. unfold target, Path.dirname. rewrite Hreal.
  rewrite PathFacts.head_file, PathFacts.all_sep_dir, PathFacts.rstrip_dir by done.
  unfold Path.join. destruct (Str.startswith "/" rel_path); [done |].
  rewrite Hend, bool_decide_eq_false_2 by done. done.
Qed.

Lemma target_resolution_witness :
  target (λ _, "/srv/docs/guide.md") "/home/me/guide.md" "parts/intro.md"
  = "/srv/docs" +:+ "/" +:+ "parts/intro.md".
Proof.
  apply (target_resolution (λ _, "/srv/docs/guide.md") "/home/me/guide.md"
           "/srv/docs" "guide.md" "parts/intro.md"); by vm_compute.
Defined.

(** ** Token substituter: text without placeholders, records, second run *)

Section SubstituterFacts.

Variable device_vars : gmap string string.

Lemma replace_from_map_free o c line replace_pattern :
  Str.free_of [o] line = true →
  _replace_from_map line (Re.variable_re o c) replace_pattern device_vars = (line, []).
Proof.
  intros Hfree. unfold _replace_from_map, Re.findall.
  rewrite <- (StrFacts.app_nil_r line) at 1. by rewrite findall_text.
Qed.

Lemma free_of_one cs c s :
  c ∈ cs → Str.free_of cs s = true → Str.free_of [c] s = true.
Proof.
  intros Hin. apply ScanFacts.free_of_weaken. intros x Hx.
  by apply list_elem_of_singleton in Hx as ->.
Qed.

(** A line in which no placeholder can start is left as it is. *)
Lemma replace_line_content_free line filename device_name :
  Str.free_of ["<"; "["]%char line = true →
  _replace_line_content line filename device_name device_vars = (line, true, []).
Proof.
  intros Hfree. unfold _replace_line_content.
  unfold Re.optional_variable_re, Re.required_variable_re.
  rewrite replace_from_map_free by (eapply free_of_one; [| done]; by left).
  rewrite replace_from_map_free by (eapply free_of_one; [| done]; right; by left).
  done.
Qed.

Lemma replace_variables_loop_free path device_name success lines :
  Forall (λ line, Str.free_of ["<"; "["]%char line = true) lines →
  replace_variables_loop path device_name device_vars success lines = (success, lines, []).
Proof.
  intros H; revert success; induction H as [|line lines Hline _ IH]; intros success; [done |].
  cbn [replace_variables_loop]. rewrite replace_line_content_free by done.
  by rewrite IH.
Qed.

Lemma free_of_splitlines cs s :
  Str.free_of cs s = true → Forall (λ line, Str.free_of cs line = true) (Str.splitlines s).
Proof.
  induction s as [|a s IH]; [by constructor |]. cbn [Str.free_of Str.splitlines].
  intros [Ha Hs]%andb_true_iff. specialize (IH Hs).
  destruct (decide (a = Str.newline)).
  - constructor; [| done]. simpl. by rewrite Ha.
  - destruct (Str.splitlines s) as [|l ls].
    + constructor; [| done]. simpl. by rewrite Ha.
    + inversion IH as [|? ? Hl Hls]; subst. constructor; [| done]. simpl. by rewrite Ha, Hl.
Qed.

Lemma free_of_concat cs parts :
  Forall (λ p, Str.free_of cs p = true) parts → Str.free_of cs (Str.concat parts) = true.
Proof.
  induction 1 as [|p parts Hp _ IH]; [done |]. simpl.
  by rewrite ScanFacts.free_of_app, Hp, IH.
Qed.

Lemma replace_variables_free content path device_name :
  Str.free_of ["<"; "["]%char content = true →
  replace_variables content path device_name device_vars = (true, content, []).
Proof.
  intros Hfree. unfold replace_variables, replace_file_inline.
  rewrite replace_variables_loop_free by (by apply free_of_splitlines).
  by rewrite StrFacts.concat_splitlines.
Qed.

(** The substituted line of clean tokens is clean. *)
Lemma clean_substitute ts :
  Forall (λ t, clean_token device_vars t = true) ts →
  clean (substitute device_vars ts) = true.
Proof.
  intros H. apply free_of_concat. rewrite Forall_fmap.
  eapply Forall_impl; [exact H |].
  intros [text|name|name]; simpl; [done | |]; by intros [_ ?]%andb_true_iff.
Qed.

Lemma names_optional_names ts : names (optional_view <$> ts) = optional_names ts.
Proof. induction ts as [|[text|name|name] ts IH]; simpl; [done | | | f_equal]; apply IH. Qed.

(** The pass over the optional placeholders, then the pass over the
    required ones, on a line of clean tokens. *)
Lemma optional_pass_tokens ts :
  Forall (λ t, clean_token device_vars t = true) ts →
  _replace_from_map (render ts) Re.optional_variable_re ("<<", ">>") device_vars
  = (render_items "[" "]" (required_view device_vars <$> ts),
     filter (λ k, device_vars !! k = None) (optional_names ts)).
Proof.
  intros Hclean. rewrite <- render_optional_view.
  change ("<<", ">>") with (delim "<", delim ">").
  change Re.optional_variable_re with (Re.variable_re "<" ">").
  rewrite replace_from_map_items; [| done | |].
  - by rewrite fill_optional_view, names_optional_names.
  - rewrite Forall_fmap. eapply Forall_impl; [exact Hclean |].
    intros [text|name|name]; simpl; rewrite ?andb_true_iff.
    + apply clean_angle.
    + intros [Hname _]. rewrite !ScanFacts.free_of_app, (clean_angle _ Hname). done.
    + intros [? _]. by apply clean_angle.
  - intros name Hin%names_optional_view.
    rewrite Forall_forall in Hclean. specialize (Hclean _ Hin). simpl in Hclean.
    apply andb_true_iff in Hclean as [? ?]. split; by apply clean_angle.
Qed.

Lemma required_pass_tokens ts :
  Forall (λ t, clean_token device_vars t = true) ts →
  _replace_from_map (render_items "[" "]" (required_view device_vars <$> ts))
    Re.required_variable_re ("[[", "]]") device_vars
  = (substitute device_vars ts,
     filter (λ k, device_vars !! k = None) (required_names ts)).
Proof.
  intros Hclean.
  change ("[[", "]]") with (delim "[", delim "]").
  change Re.required_variable_re with (Re.variable_re "[" "]").
  rewrite replace_from_map_items; [| done | |].
  - by rewrite fill_required_view, names_required_view.
  - rewrite Forall_fmap. eapply Forall_impl; [exact Hclean |].
    intros [text|name|name]; simpl; rewrite ?andb_true_iff.
    + apply clean_square.
    + intros [? _]. by apply clean_square.
    + intros [_ ?]. by apply clean_square.
  - intros name. rewrite names_required_view. intros Hin%names_required_token.
    rewrite Forall_forall in Hclean. specialize (Hclean _ Hin). simpl in Hclean.
    apply andb_true_iff in Hclean as [? ?]. split; by apply clean_square.
Qed.

End SubstituterFacts.

(** X12: A document in which no placeholder can start, for want of the
    characters < and [, goes through [replace_variables] unchanged, with
    success and without a record, whatever the variable map. *)
Theorem replace_variables_no_placeholder content path device_name device_vars :
  Str.free_of ["<"; "["]%char content = true →
  replace_variables content path device_name device_vars = (true, content, []).
Proof. apply replace_variables_free. Qed.

Lemma replace_variables_no_placeholder_witness :
  replace_variables ("Title" +:+ Str.nl +:+ "a > b, see ]]" +:+ Str.nl) "index.md" None
    {[ "NAME" := "pi" ]}
  = (true, "Title" +:+ Str.nl +:+ "a > b, see ]]" +:+ Str.nl, []).
Proof. apply replace_variables_no_placeholder. reflexivity. Defined.

(** X13: A name without mapping is reported once for each of its occurrences in
    the line: the optional ones first, at level INFO, then the required
    ones, at level ERROR, each kind in the order of the line. *)
Theorem replace_line_content_records device_vars ts filename device_name :
  Forall (λ t, clean_token device_vars t = true) ts →
  (_replace_line_content (render ts) filename device_name device_vars).2
  = (info_record device_name filename
       <$> filter (λ k, device_vars !! k = None) (optional_names ts))
    ++ (error_record device_name filename
          <$> filter (λ k, device_vars !! k = None) (required_names ts)).
Proof.
  intros Hclean. unfold _replace_line_content.
  rewrite optional_pass_tokens by done. rewrite required_pass_tokens by done. done.
Qed.

Lemma replace_line_content_records_witness :
  (_replace_line_content
     (render [Opt "NAME"; Lit " and "; Req "HOST"; Lit ", "; Opt "NAME"; Req "GREETING"])
     "index.md" (Some "pi3") {[ "GREETING" := "hi" ]}).2
  = (info_record (Some "pi3") "index.md" <$> ["NAME"; "NAME"])
    ++ (error_record (Some "pi3") "index.md" <$> ["HOST"]).
Proof.
  etrans.
  - apply (replace_line_content_records {[ "GREETING" := "hi" ]}
             [Opt "NAME"; Lit " and "; Req "HOST"; Lit ", "; Opt "NAME"; Req "GREETING"]
             "index.md" (Some "pi3")).
    repeat constructor.
  - by vm_compute.
Defined.

(** X14: After a substitution on lines of clean tokens nothing is left to
    substitute: a second run, with any variable map, changes nothing,
    succeeds and logs nothing. *)
Theorem replace_variables_second_run content path device_name device_vars device_vars' tss :
  Str.splitlines content = render <$> tss →
  Forall (Forall (λ t, clean_token device_vars t = true)) tss →
  replace_variables (replace_variables content path device_name device_vars).1.2
    path device_name device_vars'
  = (true, (replace_variables content path device_name device_vars).1.2, []).
Proof.
  intros Hlines Hclean. apply replace_variables_free.
  unfold replace_variables, replace_file_inline. rewrite Hlines.
  pose proof (replace_variables_loop_tokens device_vars path device_name true tss Hclean) as H.
  destruct (replace_variables_loop _ _ _ _ _) as [[success written] logged].
  simpl in *. simplify_eq.
  apply (free_of_concat ["<"; "["]%char). rewrite Forall_fmap.
  eapply Forall_impl; [exact Hclean |]. intros ts Hts. simpl.
  eapply ScanFacts.free_of_weaken; [| by apply clean_substitute].
  intros x. rewrite !elem_of_cons, !elem_of_nil. tauto.
Qed.

Lemma replace_variables_second_run_witness :
  replace_variables
    (replace_variables "See [[GREETING]], <<NAME>> <<NAME>>!" "index.md" (Some "pi3")
       {[ "GREETING" := "hi" ]}).1.2
    "index.md" (Some "pi3") ∅
  = (true,
     (replace_variables "See [[GREETING]], <<NAME>> <<NAME>>!" "index.md" (Some "pi3")
        {[ "GREETING" := "hi" ]}).1.2,
     []).
Proof.
  apply (replace_variables_second_run _ _ _ _ _
           [[Lit "See "; Req "GREETING"; Lit ", "; Opt "NAME"; Lit " "; Opt "NAME";
             Lit "!"]]).
  - reflexivity.
  - repeat constructor.
Defined.

(** ** Link normalizer: what it leaves alone, and how much it removes *)

Lemma links_absolute_no_match a s :
  links_absolute (String a s) = true → Re.relative_markdown_links (String a s) = None.
Proof.
  cbn [links_absolute]. intros [Ha _]%andb_true_iff. unfold Re.relative_markdown_links.
  destruct s as [|c rest]; [done |].
  destruct (bool_decide (a = "("%char)); [| done]. cbn [negb]. by rewrite Ha.
Qed.

Lemma links_absolute_findall skip s :
  links_absolute s = true → Re.findall_from Re.relative_markdown_links skip s = [].
Proof.
  revert skip; induction s as [|a s IH]; intros skip Habs; [done |].
  cbn [Re.findall_from].
  assert (links_absolute s = true) as Hs.
  { cbn [links_absolute] in Habs. by apply andb_true_iff in Habs as [_ ?]. }
  destruct skip; [| by apply IH].
  rewrite links_absolute_no_match by done. by apply IH.
Qed.

(** X16: Links to absolute addresses are not rewritten: a document in which,
    line by line, every opening parenthesis is followed by http or www is
    left as it is, markdown suffixes included. *)
Theorem reformat_links_absolute content :
  Forall (λ line, links_absolute line = true) (Str.splitlines content) →
  reformat_links content = content.
Proof.
  intros H. apply LinkFacts.reformat_links_fixed.
  eapply Forall_impl; [exact H |]. intros line Hline. by apply links_absolute_findall.
Qed.

Lemma reformat_links_absolute_witness :
  reformat_links ("[a](http://x.org/a.md)" +:+ Str.nl +:+ "[b](www.x.org/b.md)" +:+ Str.nl)
  = "[a](http://x.org/a.md)" +:+ Str.nl +:+ "[b](www.x.org/b.md)" +:+ Str.nl.
Proof. apply reformat_links_absolute. repeat constructor. Defined.

(** X18: The normalizer never makes a document longer, and a document it does
    not make shorter is a document it does not change. *)
Theorem reformat_links_length content :
  String.length (reformat_links content) ≤ String.length content
  ∧ (String.length (reformat_links content) = String.length content ↔
     reformat_links content = content).
Proof.
  pose proof (LinkFacts.length_concat_reformat (Str.splitlines content)) as [Hle Hlt].
  assert (reformat_links content = Str.concat (reformat_line <$> Str.splitlines content))
    as E by done.
  rewrite StrFacts.concat_splitlines in Hle, Hlt. rewrite <- E in Hle, Hlt.
  split; [done |]. split; [| by intros ->].
  intros Hlen. apply LinkFacts.reformat_links_fixed.
  destruct (decide (Forall (λ line, Re.findall Re.relative_markdown_links line = [])
                      (Str.splitlines content))) as [|Hex]; [done |].
  apply not_Forall_Exists in Hex; [| intros ?; apply _].
  specialize (Hlt Hex). lia.
Qed.

(** ** Importing copier: one missing import, and calls that return true *)

(** X8: A source whose one directive refers to a file that does not exist: the
    call returns false, the destination holds the other lines of the source,
    and one error is logged, which names the path of the directive and the
    source. *)
Theorem import_and_copy_file_missing_import realpath fuel fs source_path destination_path
    content before line after rel_path more :
  0 < fuel →
  creatable fs destination_path →
  source_path ≠ destination_path →
  fs !! source_path = Some (Regular (Text content)) →
  lines_of (Text content) = before ++ line :: after →
  (∀ l, l ∈ before ++ after → Re.findall Re.import_re l = []) →
  Re.findall Re.import_re line = rel_path :: more →
  open_r (<[destination_path := Regular (Text "")]> fs) (target realpath source_path rel_path)
  = inl FileNotFoundError →
  import_and_copy_file realpath fuel fs source_path destination_path
  = Some (Outcome (inr false)
            (<[destination_path := Regular (Text (Str.concat before +:+ Str.concat after))]> fs)
            [(ERROR, "Couldn't import " +:+ rel_path +:+ " from " +:+ source_path)]).
Proof.
  intros Hfuel Hdst Hne Hsrc Hlines Hplain Hline Hopen.
  destruct fuel as [|fuel]; [lia |]. unfold import_and_copy_file.
  rewrite open_w_creatable, open_r_insert_ne, (open_r_regular _ _ _ Hsrc) by done.
  cbn [_copycontent_withimports_tag]. rewrite Hlines.
  rewrite (copy_lines_app _ _ _ _ _ _ _ _ _ _
             (copy_lines_plain _ _ _ source_path before true (Io "" [])
                (λ l Hl, Hplain l (proj2 (elem_of_app _ _ _) (or_introl Hl))))).
  rewrite (copy_lines_missing _ _ _ _ _ _ _ _ _ _ Hline Hopen).
  rewrite copy_lines_plain
    by (intros l Hl; apply Hplain, elem_of_app; by right).
  cbn. by rewrite insert_insert_eq.
Qed.

Lemma import_and_copy_file_missing_import_witness :
  import_and_copy_file id 1 partial_fs "/d/b.md" "/out/b.md"
  = Some (Outcome (inr false)
            (<["/out/b.md" :=
                 Regular (Text (Str.concat ["b1" +:+ Str.nl] +:+ Str.concat ["b2" +:+ Str.nl]))]>
               partial_fs)
            [(ERROR, "Couldn't import " +:+ "missing.md" +:+ " from " +:+ "/d/b.md")]).
Proof.
  apply (import_and_copy_file_missing_import id 1 partial_fs "/d/b.md" "/out/b.md" partial_b
           ["b1" +:+ Str.nl] ("##IMPORT missing.md" +:+ Str.nl) ["b2" +:+ Str.nl]
           "missing.md" []).
  - lia.
  - left. by vm_compute.
  - by vm_compute.
  - by vm_compute.
  - by vm_compute.
  - intros l Hl. elem_cases Hl.
  - by vm_compute.
  - by vm_compute.
Defined.

Section CopyQuiet.

Variable realpath : string → string.
Variable fs : gmap string entry.

Lemma copy_lines_quiet recur name lines success st st' :
  quiet recur →
  copy_lines realpath fs recur name lines success st = Some (st', inr true) →
  success = true ∧ logged st' = logged st.
Proof.
  intros Hrec. revert success st.
  induction lines as [|line rest IH]; intros success st H; simpl in H.
  - by simplify_eq.
  - destruct (Re.findall Re.import_re line) as [|rel_path more].
    { destruct (IH _ _ H) as [-> E]. done. }
    destruct (open_r fs _) as [[]|import_f]; try done.
    { by destruct (IH _ _ H). }
    destruct (recur _ _ _) as [[st1 [[]|imported]]|] eqn:Erec; try done.
    { by destruct (IH _ _ H). }
    destruct (IH _ _ H) as [[-> ->]%andb_true_iff E].
    split; [done |]. rewrite E. by apply (Hrec _ _ _ _ Erec).
Qed.

Lemma copy_quiet fuel : quiet (_copycontent_withimports_tag realpath fs fuel).
Proof.
  induction fuel as [|fuel IH]; intros path f st st' H; [done |]. simpl in H.
  destruct (copy_lines _ _ _ _ _ _ _) as [[st1 [e|success]]|] eqn:E; [done | | done].
  destruct (end_of f); simplify_eq.
  by destruct (copy_lines_quiet _ _ _ _ _ _ IH E).
Qed.

End CopyQuiet.

(** X3: A call that returns true has logged nothing, unless it fell back to the
    plain copy: then the record of the fallback is the last one. *)
Theorem import_and_copy_file_true_quiet realpath fuel fs source_path destination_path o :
  import_and_copy_file realpath fuel fs source_path destination_path = Some o →
  result o = inr true →
  records o = []
  ∨ ∃ logs e,
      records o = logs ++ [(DEBUG, "Directly copy as can't read " +:+ source_path
                                   +:+ " as text: " +:+ e)].
Proof.
  unfold import_and_copy_file. intros H Htrue.
  destruct (open_w fs destination_path) as [[]|fs1]; simplify_eq; try done.
  destruct (open_r fs1 source_path) as [[]|source_f]; simplify_eq; try done.
  destruct (_copycontent_withimports_tag _ _ _ _ _ _) as [[st r]|] eqn:E; [| done].
  destruct r as [[| |e]|success].
  - by simplify_eq.
  - by simplify_eq.
  - destruct (copy2 _ _ _); simplify_eq. right. by exists (logged st), e.
  - simplify_eq. cbn [result records] in *. simplify_eq. left.
    by apply (copy_quiet _ _ _ _ _ _ _ E).
Qed.

Lemma import_and_copy_file_true_quiet_witness :
  ∃ o, import_and_copy_file id 3 chain_fs "/d/a.md" "/out/a.md" = Some o
       ∧ result o = inr true
       ∧ (records o = []
          ∨ ∃ logs e,
              records o = logs ++ [(DEBUG, "Directly copy as can't read " +:+ "/d/a.md"
                                           +:+ " as text: " +:+ e)]).
Proof.
  destruct (import_and_copy_file id 3 chain_fs "/d/a.md" "/out/a.md") as [o|] eqn:E.
  - assert (result o = inr true) as Hr by (by vm_compute in E; simplify_eq).
    exists o. split; [done |]. split; [done |].
    exact (import_and_copy_file_true_quiet id 3 chain_fs "/d/a.md" "/out/a.md" o E Hr).
  - by vm_compute in E.
Defined.

(** ** Token substituter: the names reported, on any line *)

Lemma replace_from_map_fold (device_vars : gmap string string) replace_pattern ks
    (line : string) unfound :
  (fold_left
     (λ '(line, unfound_keywords_list) keyword,
        match device_vars !! keyword with
        | Some replace_with =>
            (Str.replace (format1 replace_pattern keyword) replace_with line,
             unfound_keywords_list)
        | None =>
            (Str.replace (format1 replace_pattern keyword) "" line,
             unfound_keywords_list ++ [keyword])
        end)
     ks (line, unfound)).2
  = unfound ++ filter (λ k, device_vars !! k = None) ks.
Proof.
  revert line unfound; induction ks as [|k ks IH]; intros line unfound.
  - simpl. by rewrite app_nil_r.
  - cbn [fold_left]. destruct (device_vars !! k) eqn:E.
    + rewrite IH. by rewrite filter_cons_False by (by rewrite E).
    + rewrite IH. rewrite filter_cons_True by done. by rewrite <- app_assoc.
Qed.

(** X15: On every line, the required names decide the success as the second pass
    finds them: the call fails exactly when a name found by the pattern of
    the required placeholders, in the line the pass over the optional ones
    has left, has no mapping. *)
Theorem replace_line_content_success line filename device_name device_vars :
  (_replace_line_content line filename device_name device_vars).1.2
  = forallb (λ name, bool_decide (is_Some (device_vars !! name)))
      (Re.findall Re.required_variable_re
         (_replace_from_map line Re.optional_variable_re ("<<", ">>") device_vars).1).
Proof.
  unfold _replace_line_content.
  destruct (_replace_from_map line _ _ _) as [line1 unfound_optional]. cbn [fst].
  pose proof (replace_from_map_fold device_vars ("[[", "]]")
                (Re.findall Re.required_variable_re line1) line1 []) as H.
  fold (_replace_from_map line1 Re.required_variable_re ("[[", "]]") device_vars) in H.
  destruct (_replace_from_map line1 _ _ _) as [line2 unfound_required].
  cbn [fst snd] in *. subst. rewrite app_nil_l. apply filter_unmapped.
Qed.

Module LineFacts.

(** A line with its terminator, in front of a text, is the first line read. *)
Lemma splitlines_line body s :
  Str.free_of [Str.newline] body = true →
  Str.splitlines (body +:+ Str.nl +:+ s) = (body +:+ Str.nl) :: Str.splitlines s.
Proof.
  induction body as [|c body IH]; intros Hbody.
  - reflexivity.
  - cbn [Str.free_of] in Hbody. apply andb_true_iff in Hbody as [Hc Hbody].
    apply bool_decide_eq_true in Hc.
    change (String c body +:+ Str.nl +:+ s) with (String c (body +:+ Str.nl +:+ s)).
    cbn [Str.splitlines]. rewrite decide_False by (intros ->; apply Hc; by left).
    by rewrite IH.
Qed.

(** The first of several lines has its terminator, and the lines behind it
    are read again as they are. *)
Lemma splitlines_first s first second rest :
  Str.splitlines s = first :: second :: rest →
  (∃ body, first = body +:+ Str.nl ∧ Str.free_of [Str.newline] body = true)
  ∧ Str.splitlines (Str.concat (second :: rest)) = second :: rest.
Proof.
  revert first; induction s as [|c s IH]; intros first H; [done |].
  cbn [Str.splitlines] in H. destruct (decide (c = Str.newline)) as [->|Hc].
  - injection H as <- Hs. split; [by exists "" |].
    rewrite <- Hs. by rewrite StrFacts.concat_splitlines.
  - destruct (Str.splitlines s) as [|l ls] eqn:E; [done |].
    injection H as <- ->.
    destruct (IH l eq_refl) as [(body & -> & Hbody) Hrest]. split; [| done].
    exists (String c body). split; [done |]. cbn [Str.free_of]. rewrite Hbody.
    rewrite bool_decide_eq_true_2; [done |]. by intros ?%list_elem_of_singleton.
Qed.

End LineFacts.

(** X19: Read again line by line, a document of two lines and more comes back
    from [prepend_external_link] with its first line, then the annotation as
    the second line, then its other lines, when neither the message nor the
    address holds a line terminator. *)
Theorem prepend_external_link_lines content message url first second rest :
  Str.splitlines content = first :: second :: rest →
  Str.free_of [Str.newline] message = true →
  Str.free_of [Str.newline] url = true →
  Str.splitlines (prepend_external_link content message url)
  = first :: ("> [" +:+ message +:+ "](" +:+ url +:+ ")" +:+ Str.nl) :: second :: rest.
Proof.
  intros Hlines Hmessage Hurl.
  destruct (LineFacts.splitlines_first _ _ _ _ Hlines) as [(body & -> & Hbody) Hrest].
  unfold prepend_external_link, replace_file_inline. rewrite Hlines.
  cbn [snd prepend_external_link_loop]. rewrite decide_False by lia.
  rewrite decide_True by done. rewrite prepend_external_link_loop_past by lia.
  cbn [app]. change (Str.concat ((body +:+ Str.nl) :: ?l)) with ((body +:+ Str.nl) +:+ Str.concat l).
  rewrite StrFacts.app_assoc, LineFacts.splitlines_line by done. f_equal.
  change (Str.concat (?a :: ?l)) with (a +:+ Str.concat l).
  replace ("> [" +:+ message +:+ "](" +:+ url +:+ ")" +:+ Str.nl)
    with (("> [" +:+ message +:+ "](" +:+ url +:+ ")") +:+ Str.nl)
    by (by rewrite !StrFacts.app_assoc).
  rewrite StrFacts.app_assoc, LineFacts.splitlines_line; [by rewrite Hrest |].
  rewrite !ScanFacts.free_of_app, Hmessage, Hurl. done.
Qed.

Lemma prepend_external_link_lines_witness :
  Str.splitlines
    (prepend_external_link ("Title" +:+ Str.nl +:+ "Body" +:+ Str.nl +:+ "End")
       "source" "http://x")
  = ("Title" +:+ Str.nl) :: ("> [" +:+ "source" +:+ "](" +:+ "http://x" +:+ ")" +:+ Str.nl)
    :: ("Body" +:+ Str.nl) :: ["End"].
Proof.
  apply (prepend_external_link_lines _ "source" "http://x" ("Title" +:+ Str.nl)
           ("Body" +:+ Str.nl) ["End"]); reflexivity.
Defined.

(** ** Link normalizer: lines without the suffix *)

Lemma contains_false sub x y : contains sub (x +:+ sub +:+ y) = true.
Proof.
  induction x as [|a x IH].
  - change ("" +:+ sub +:+ y) with (sub +:+ y).
    destruct (sub +:+ y) eqn:E; simpl; rewrite <- E, StrFacts.startswith_app; done.
  - change (String a x +:+ sub +:+ y) with (String a (x +:+ sub +:+ y)).
    cbn [contains]. rewrite IH. apply orb_true_r.
Qed.

Lemma links_match_suffix s g len :
  Re.relative_markdown_links s = Some (g, len) → ∃ x y, s = x +:+ ".md)" +:+ y.
Proof.
  unfold Re.relative_markdown_links.
  destruct s as [|a [|c rest]]; [done.. |].
  destruct (negb _); [done |].
  destruct (_ || _); [done |].
  destruct (bool_decide (c = Str.newline)); [done |].
  destruct (Str.span _ rest) as [run rest'] eqn:Espan.
  destruct (Str.startswith ")" rest' && _) eqn:E; [| done].
  apply andb_true_iff in E as [[y ->]%StrFacts.startswith_inv Hmd%bool_decide_eq_true].
  intros _. exists (String a (String c (Str.take (String.length run - 3) run))), y.
  rewrite (ScanFacts.span_app _ _ _ _ Espan).
  rewrite <- (LinkFacts.take_drop (String.length run - 3) run) at 1. rewrite Hmd.
  simpl. by rewrite !StrFacts.app_assoc.
Qed.

Lemma findall_suffix skip s :
  contains ".md)" s = false → Re.findall_from Re.relative_markdown_links skip s = [].
Proof.
  revert skip; induction s as [|a s IH]; intros skip Hno; [done |].
  cbn [Re.findall_from].
  assert (contains ".md)" s = false) as Hs.
  { cbn [contains] in Hno. by apply orb_false_iff in Hno as [_ ?]. }
  destruct skip; [| by apply IH].
  destruct (Re.relative_markdown_links (String a s)) as [[g len]|] eqn:E; [| by apply IH].
  apply links_match_suffix in E as (x & y & E).
  rewrite E, contains_false in Hno. done.
Qed.

(** X17: Only the suffix in front of a closing parenthesis makes a target: a
    document no line of which holds [.md)] is left as it is. *)
Theorem reformat_links_no_suffix content :
  Forall (λ line, contains ".md)" line = false) (Str.splitlines content) →
  reformat_links content = content.
Proof.
  intros H. apply LinkFacts.reformat_links_fixed.
  eapply Forall_impl; [exact H |]. intros line Hline. by apply findall_suffix.
Qed.

Lemma reformat_links_no_suffix_witness :
  reformat_links ("[a](install.html)" +:+ Str.nl +:+ "read install.md (soon)" +:+ Str.nl)
  = "[a](install.html)" +:+ Str.nl +:+ "read install.md (soon)" +:+ Str.nl.
Proof. apply reformat_links_no_suffix. repeat constructor. Defined.
